(** * The file-naming options page of Picard (picard/ui/options/renaming.py)

    A shallow embedding of [RenamingOptionsPage]: the widgets it drives, the
    configuration store it loads from and saves to, its validation methods
    and its signal handlers, followed by the properties of the page.

    Python [str] values are sequences of Unicode code points, the
    configuration section [config.setting] is a finite map from option names
    to values, exceptions are an explicit outcome, and Qt signals that a
    widget emits are returned next to the new widget state. *)

From Stdlib Require Import ZArith NArith Ascii String.
From stdpp Require Import functions gmap strings list fin_maps.

Open Scope Z_scope.

(** ** Python strings *)

(** A [str] is a list of code points. *)
Abbreviation str := (list N).

(** A literal of the source, written with ASCII characters. *)
Definition u (s : string) : str :=
  (λ a, N_of_ascii a) <$> list_ascii_of_string s.
Arguments u _%_string.

(** [Py_UNICODE_ISSPACE]: the characters [str.strip()] removes. *)
Definition isspace (c : N) : bool :=
  ((9 <=? c) && (c <=? 13) || (28 <=? c) && (c <=? 32)
   || (c =? 133) || (c =? 160) || (c =? 5760)
   || (8192 <=? c) && (c <=? 8202)
   || (c =? 8232) || (c =? 8233) || (c =? 8239) || (c =? 8287)
   || (c =? 12288))%N.

Fixpoint lstrip (s : str) : str :=
  match s with
  | c :: s' => if isspace c then lstrip s' else s
  | [] => []
  end.

Definition rstrip (s : str) : str := rev (lstrip (rev s)).

(** [s.strip()] *)
Definition strip (s : str) : str := rstrip (lstrip s).

(** A text that does not start with whitespace. *)
Definition clean_head (s : str) : Prop :=
  match s with
  | [] => True
  | c :: _ => isspace c = false
  end.

(** Truth value of a [str]: the empty string is false. *)
Definition truthy (s : str) : bool :=
  match s with [] => false | _ => true end.

Fixpoint startswith (prefix s : str) : bool :=
  match prefix, s with
  | [], _ => true
  | a :: prefix', b :: s' => (a =? b)%N && startswith prefix' s'
  | _ :: _, [] => false
  end.

(** ** [os.path.normpath] on a POSIX host ([posixpath.normpath]) *)

Module posixpath.

Definition sep : N := 47.
Definition dot : str := u ".".
Definition dotdot : str := u "..".

(** [path.split(sep)]: never the empty list. *)
Fixpoint split (s : str) : list str :=
  match s with
  | [] => [[]]
  | c :: s' =>
      if (c =? sep)%N then [] :: split s'
      else match split s' with
           | h :: t => (c :: h) :: t
           | [] => [[c]]
           end
  end.

(** [sep.join(comps)] *)
Fixpoint join (comps : list str) : str :=
  match comps with
  | [] => []
  | [c] => c
  | c :: rest => c ++ sep :: join rest
  end.

Definition str_eqb (a b : str) : bool := bool_decide (a = b).

(** One round of the loop over [comps]; [new_comps] grows at its end. *)
Definition normpath_step (initial_slashes : nat) (new_comps : list str)
    (comp : str) : list str :=
  if str_eqb comp [] || str_eqb comp dot then new_comps
  else if negb (str_eqb comp dotdot)
          || (Nat.eqb initial_slashes 0 && bool_decide (new_comps = []))
          || (negb (bool_decide (new_comps = []))
              && bool_decide (last new_comps = Some dotdot))
  then new_comps ++ [comp]
  else if negb (bool_decide (new_comps = [])) then removelast new_comps
  else new_comps.

Definition normpath (path : str) : str :=
  if str_eqb path [] then dot
  else
    let initial_slashes :=
      if startswith [sep] path then
        if startswith [sep; sep] path && negb (startswith [sep; sep; sep] path)
        then 2%nat else 1%nat
      else 0%nat in
    let comps := split path in
    let new_comps := fold_left (normpath_step initial_slashes) comps [] in
    let path := join new_comps in
    let path := repeat sep initial_slashes ++ path in
    if truthy path then path else dot.

(** A normalized path: at most two leading separators, followed by
    components that are not empty, are not "." and hold no separator,
    joined by single separators; "." when nothing is left. *)
Definition component (c : str) : Prop := c ≠ [] ∧ c ≠ dot ∧ sep ∉ c.

Definition normalized (path : str) : Prop :=
  ∃ (slashes : nat) (comps : list str),
    (slashes ≤ 2)%nat ∧ Forall component comps
    ∧ path = if decide (slashes = 0%nat ∧ comps = []) then dot
             else repeat sep slashes ++ join comps.

(** The first lines of [normpath]: the number of leading separators that
    are kept. *)
Definition initial_slashes (path : str) : nat :=
  if startswith [sep] path then
    if startswith [sep; sep] path && negb (startswith [sep; sep; sep] path)
    then 2%nat else 1%nat
  else 0%nat.

(** Components as [normpath] leaves them: ".." only in front, and only in
    a relative path. *)
Definition plain (c : str) : Prop := component c ∧ c ≠ dotdot.

Definition settled (slashes : nat) (comps : list str) : Prop :=
  ∃ (n : nat) (rest : list str),
    comps = repeat dotdot n ++ rest ∧ Forall plain rest
    ∧ (slashes ≠ 0%nat → n = 0%nat).

End posixpath.

(** ** Qt widgets

    Each widget is the part of its state the page reads or writes.  A
    setter that makes Qt emit a signal returns the emitted signals beside
    the new state; a widget whose signals are blocked emits nothing. *)

Module QCheckBox.
Record t := mk { isChecked : bool; isEnabled : bool }.

Definition setEnabled (b : bool) (w : t) : t := mk (isChecked w) b.

(** [setChecked(b)]: [toggled(b)] is emitted when the state changes. *)
Definition setChecked (b : bool) (w : t) : t * list bool :=
  (mk b (isEnabled w), if bool_decide (isChecked w = b) then [] else [b]).
End QCheckBox.

(** A text inside Qt is a [QString], a sequence of UTF-16 code units.  A
    [str] handed to Qt has each character above U+FFFF turned into a
    surrogate pair; a [QString] handed back has each surrogate pair turned
    into one character, and every other code unit into the character of
    that number. *)
Module QString.
Definition is_high (unit : N) : bool := ((55296 <=? unit) && (unit <=? 56319))%N.
Definition is_low (unit : N) : bool := ((56320 <=? unit) && (unit <=? 57343))%N.

(** The code units of one character (a [str] holds no character above
    U+10FFFF). *)
Definition encode (c : N) : list N :=
  if (c <? 65536)%N then [c]
  else [ (55296 + ((c - 65536) / 1024) mod 1024)%N;
         (56320 + (c - 65536) mod 1024)%N ].

Definition combine (high low : N) : N :=
  (65536 + (high - 55296) * 1024 + (low - 56320))%N.

Definition fromStr (s : str) : list N := flat_map encode s.

Fixpoint toStr (units : list N) : str :=
  match units with
  | [] => []
  | unit :: rest =>
      match rest with
      | low :: rest' =>
          if is_high unit && is_low low then combine unit low :: toStr rest'
          else unit :: toStr rest
      | [] => [unit]
      end
  end.

(** [QString::left(n)]: the first [n] code units. *)
Fixpoint left (n : N) (units : list N) : list N :=
  match units with
  | [] => []
  | unit :: rest => if (n =? 0)%N then [] else unit :: left (n - 1) rest
  end.

(** A [str] that comes back from Qt as it went in: characters up to
    U+10FFFF, and no high surrogate directly before a low one. *)
Fixpoint well_formed (s : str) : bool :=
  match s with
  | [] => true
  | c :: rest =>
      (c <? 1114112)%N
      && negb (is_high c && match rest with low :: _ => is_low low | [] => false end)
      && well_formed rest
  end.
End QString.

Module QLineEdit.
Record t := mk { text : str; cursorPosition : Z; isEnabled : bool }.

(** [maxLength()], which no method of the page changes. *)
Definition maxLength : N := 32767.

(** What the line edit holds of a text it is given: the text is cut to
    its first [maxLength] code units. *)
Definition fit (s : str) : str :=
  QString.toStr (QString.left maxLength (QString.fromStr s)).

(** [setText] truncates the text and leaves the cursor at its end. *)
Definition setText (s : str) (w : t) : t :=
  mk (fit s) (Z.of_nat (length (QString.fromStr (fit s)))) (isEnabled w).
Definition setCursorPosition (n : Z) (w : t) : t :=
  mk (text w)
    (Z.max 0 (Z.min n (Z.of_nat (length (QString.fromStr (text w))))))
    (isEnabled w).
Definition setEnabled (b : bool) (w : t) : t :=
  mk (text w) (cursorPosition w) b.
End QLineEdit.

Module QLabel.
Record t := mk { styleSheet : str; text : str }.
Definition setStyleSheet (s : str) (w : t) : t := mk s (text w).
Definition setText (s : str) (w : t) : t := mk (styleSheet w) s.
End QLabel.

Module QComboBox.
(** Items are (text, data) pairs; [currentIndex] is -1 when nothing is
    selected. *)
Record t := mk {
  items : list (str * str);
  currentIndex : Z;
  signalsBlocked : bool
}.

Definition count (w : t) : nat := length (items w).
Definition itemText (i : nat) (w : t) : str := default [] (fst <$> items w !! i).
Definition itemData (i : nat) (w : t) : str := default [] (snd <$> items w !! i).

Definition blockSignals (b : bool) (w : t) : t :=
  mk (items w) (currentIndex w) b.

(** The [currentIndexChanged] signals that leave the widget. *)
Definition emit (w : t) (sigs : list Z) : list Z :=
  if signalsBlocked w then [] else sigs.

Definition clear (w : t) : t * list Z :=
  (mk [] (-1) (signalsBlocked w),
   emit w (if currentIndex w =? -1 then [] else [-1])).

(** Adding to an empty box selects the new item. *)
Definition addItem (title data : str) (w : t) : t * list Z :=
  match items w with
  | [] => (mk [(title, data)] 0 (signalsBlocked w),
           emit w (if currentIndex w =? 0 then [] else [0]))
  | _ => (mk (items w ++ [(title, data)]) (currentIndex w) (signalsBlocked w), [])
  end.

(** An index out of range clears the selection. *)
Definition setCurrentIndex (i : Z) (w : t) : t * list Z :=
  let i' := if (0 <=? i) && (i <? Z.of_nat (count w)) then i else -1 in
  (mk (items w) i' (signalsBlocked w),
   emit w (if currentIndex w =? i' then [] else [i'])).
End QComboBox.

Module QListWidget.
Record t := mk {
  rows : list str;
  currentRow : Z;
  signalsBlocked : bool
}.

Definition blockSignals (b : bool) (w : t) : t :=
  mk (rows w) (currentRow w) b.

(** [setCurrentRow(r)]: one [itemSelectionChanged] leaves the widget when
    the selection changes and signals are not blocked. *)
Definition setCurrentRow (r : Z) (w : t) : t * nat :=
  let r' := if (0 <=? r) && (r <? Z.of_nat (length (rows w))) then r else -1 in
  (mk (rows w) r' (signalsBlocked w),
   if signalsBlocked w then 0%nat
   else if currentRow w =? r' then 0%nat else 1%nat).
End QListWidget.

(** The measures used to compare a path with its normal form: the code
    units of a text, one more than the code units of each component (the
    code units of the joined components and their separators, plus one),
    and the number of empty components. *)
Definition ulen (s : str) : nat := length (QString.fromStr s).

Definition weight (comps : list str) : nat :=
  sum_list_with (λ c, S (ulen c)) comps.

Definition empties (comps : list str) : nat :=
  length (filter (λ c, c = []) comps).

(** ** The configuration store

    [config.setting] maps option names to values.  The page registers its
    eleven options with a type and a default in [options]. *)

Inductive value :=
  | BoolV (b : bool)
  | TextV (s : str)
  | ListV (l : list str).

#[global] Instance value_eq_dec : EqDecision value.
Proof. solve_decision. Defined.

(** ** Exceptions of the options framework *)

Inductive exn :=
  | OptionsCheckError (title info : str)
  | ScriptCheckError (title info : str).

Inductive outcome (A : Type) :=
  | Return (a : A)
  | Raise (e : exn).
Arguments Return {A} a.
Arguments Raise {A} e.

#[global] Instance outcome_ret : MRet outcome := λ A a, Return a.

#[global] Instance outcome_bind : MBind outcome := λ A B k m,
  match m with
  | Return a => k a
  | Raise e => Raise e
  end.

(** The exceptions a call lets its caller see. *)
Definition raised {A} (m : outcome A) : list exn :=
  match m with
  | Return _ => []
  | Raise e => [e]
  end.

(** What [ScriptParser().eval(script)] does: it returns the evaluated text
    or raises an exception [e], of which only [str(e)] is used. *)
Inductive eval_result :=
  | Evaluated (output : str)
  | Failed (message : str).

(** ** The widgets of [Ui_RenamingOptionsPage] *)

Inductive checkbox :=
  | ascii_filenames | windows_compatibility | rename_files | move_files
  | delete_empty_dirs | move_additional_files.

Inductive lineedit := move_files_to | move_additional_files_pattern.

(** The push buttons [open_script_editor] and [move_files_to_browse]. *)
Inductive button := open_script_editor_button | move_files_to_browse_button.

Inductive listbox := example_filename_before | example_filename_after.

#[global] Instance checkbox_eq_dec : EqDecision checkbox.
Proof. solve_decision. Defined.
#[global] Instance lineedit_eq_dec : EqDecision lineedit.
Proof. solve_decision. Defined.
#[global] Instance button_eq_dec : EqDecision button.
Proof. solve_decision. Defined.
#[global] Instance listbox_eq_dec : EqDecision listbox.
Proof. solve_decision. Defined.

Record Ui := mkUi {
  check_box : checkbox → QCheckBox.t;
  line_edit : lineedit → QLineEdit.t;
  button_enabled : button → bool;
  naming_script_selector : QComboBox.t;
  list_box : listbox → QListWidget.t;
  renaming_error : QLabel.t
}.

(** The two checkable actions of the main window, [tagger.window]. *)
Record MainWindow := mkWindow {
  enable_renaming_action : bool;
  enable_moving_action : bool
}.

(** ** The host of the page

    Everything the module imports and does not define: the platform, the
    scripting engine, the translation function, and the two collaborators
    of the page, the script editor dialog and the example files, known
    only through the attributes and methods the page uses. *)

Class Host := {
  (** [picard.const.sys.IS_WIN] *)
  IS_WIN : bool;
  (** [os.path.normpath] of the platform *)
  os_path_normpath : str → str;
  (** [_()], the translation of a message *)
  gettext : str → str;
  DEFAULT_FILE_NAMING_FORMAT : str;
  default_music_dir : str;
  STYLESHEET_ERROR : str;
  (** [ScriptParser().eval] *)
  ScriptParser_eval : str → eval_result;
  (** [enabledSlot(func, state)] forwards to [func]: [Some a] when it calls
      [func(a)], [None] when it does not call it. *)
  enabledSlot_arg : bool → option bool;

  (** [ScriptEditorExamples] *)
  Examples : Type;
  update_examples : gmap string value → Examples → Examples;
  update_sample_example_files : Examples → Examples;
  get_examples : Examples → list (str * str);

  (** [ScriptEditorDialog]; it shares the [Examples] object of the page. *)
  Editor : Type;
  preset_naming_scripts : Editor → QComboBox.t;
  naming_scripts : Editor → list str;
  selected_script_id : Editor → str;
  get_script : Editor → str;
  editor_load : gmap string value → Editor → Editor;
  editor_show : Editor → Editor;
  editor_display_examples : Examples → Editor → Editor;
  preset_setCurrentIndex : Z → Editor → Editor;
  update_example_listboxes :
    QListWidget.t → QListWidget.t → list (str * str) →
    QListWidget.t * QListWidget.t;

  (** What the constructor gets from [setupUi] and from the constructors of
      the collaborators. *)
  setupUi : Ui;
  new_examples : Examples;
  new_editor : Examples → Editor
}.

Section RenamingOptionsPage.
Context `{Host}.

(** *** Options and the configuration section *)

(** The class attribute [options]. *)
Definition options : list (string * value) :=
  [ ("windows_compatibility"%string, BoolV true);
    ("ascii_filenames"%string, BoolV false);
    ("rename_files"%string, BoolV false);
    ("file_naming_format"%string, TextV DEFAULT_FILE_NAMING_FORMAT);
    ("move_files"%string, BoolV false);
    ("move_files_to"%string, TextV default_music_dir);
    ("move_additional_files"%string, BoolV false);
    ("move_additional_files_pattern"%string, TextV (u "*.jpg *.png"));
    ("delete_empty_dirs"%string, BoolV true);
    ("file_naming_scripts"%string, ListV []);
    ("selected_file_naming_script_id"%string, TextV (u "")) ].

Definition same_type (a b : value) : bool :=
  match a, b with
  | BoolV _, BoolV _ | TextV _, TextV _ | ListV _, ListV _ => true
  | _, _ => false
  end.

(** Modelled from the spec: the configuration store of [picard.config],
    consumed as a key/value get/set interface keyed by the option names;
    a name that is not stored, or is stored with a value of another type
    than registered, reads as the default registered in [options]. *)
Definition getitem (setting : gmap string value) (name : string) : option value :=
  match (list_to_map options : gmap string value) !! name with
  | Some d =>
      match setting !! name with
      | Some v => if same_type v d then Some v else Some d
      | None => Some d
      end
  | None => None
  end.

Definition setting_bool (setting : gmap string value) (name : string) : bool :=
  match getitem setting name with Some (BoolV b) => b | _ => false end.

Definition setting_text (setting : gmap string value) (name : string) : str :=
  match getitem setting name with Some (TextV s) => s | _ => [] end.

(** *** The page object *)

Record Page := mkPage {
  script_text : str;
  current_row : Z;
  ui : Ui;
  script_editor_page : Editor;
  examples : Examples
}.

Definition with_script_text (s : str) (p : Page) : Page :=
  mkPage s (current_row p) (ui p) (script_editor_page p) (examples p).
Definition with_current_row (r : Z) (p : Page) : Page :=
  mkPage (script_text p) r (ui p) (script_editor_page p) (examples p).
Definition with_ui (x : Ui) (p : Page) : Page :=
  mkPage (script_text p) (current_row p) x (script_editor_page p) (examples p).
Definition with_editor (e : Editor) (p : Page) : Page :=
  mkPage (script_text p) (current_row p) (ui p) e (examples p).
Definition with_examples (e : Examples) (p : Page) : Page :=
  mkPage (script_text p) (current_row p) (ui p) (script_editor_page p) e.

(** Replacing one widget of the page. *)
Definition with_check_box (c : checkbox) (w : QCheckBox.t) (p : Page) : Page :=
  with_ui (mkUi (<[c := w]> (check_box (ui p))) (line_edit (ui p))
             (button_enabled (ui p)) (naming_script_selector (ui p))
             (list_box (ui p)) (renaming_error (ui p))) p.
Definition with_line_edit (e : lineedit) (w : QLineEdit.t) (p : Page) : Page :=
  with_ui (mkUi (check_box (ui p)) (<[e := w]> (line_edit (ui p)))
             (button_enabled (ui p)) (naming_script_selector (ui p))
             (list_box (ui p)) (renaming_error (ui p))) p.
Definition with_button (b : button) (enabled : bool) (p : Page) : Page :=
  with_ui (mkUi (check_box (ui p)) (line_edit (ui p))
             (<[b := enabled]> (button_enabled (ui p)))
             (naming_script_selector (ui p))
             (list_box (ui p)) (renaming_error (ui p))) p.
Definition with_selector (w : QComboBox.t) (p : Page) : Page :=
  with_ui (mkUi (check_box (ui p)) (line_edit (ui p)) (button_enabled (ui p))
             w (list_box (ui p)) (renaming_error (ui p))) p.
Definition with_list_box (l : listbox) (w : QListWidget.t) (p : Page) : Page :=
  with_ui (mkUi (check_box (ui p)) (line_edit (ui p)) (button_enabled (ui p))
             (naming_script_selector (ui p))
             (<[l := w]> (list_box (ui p))) (renaming_error (ui p))) p.
Definition with_renaming_error (w : QLabel.t) (p : Page) : Page :=
  with_ui (mkUi (check_box (ui p)) (line_edit (ui p)) (button_enabled (ui p))
             (naming_script_selector (ui p)) (list_box (ui p)) w) p.

(** Shorthands for the reads the methods make. *)
Definition isChecked (c : checkbox) (p : Page) : bool :=
  QCheckBox.isChecked (check_box (ui p) c).
Definition text (e : lineedit) (p : Page) : str :=
  QLineEdit.text (line_edit (ui p) e).

Definition isEnabled (c : checkbox) (p : Page) : bool :=
  QCheckBox.isEnabled (check_box (ui p) c).

(** Two pages agree on everything but which widgets are enabled. *)
Definition same_values (p q : Page) : Prop :=
  (∀ c, isChecked c p = isChecked c q)
  ∧ (∀ e, text e p = text e q)
  ∧ script_text p = script_text q
  ∧ current_row p = current_row q
  ∧ script_editor_page p = script_editor_page q
  ∧ examples p = examples q.

Definition setEnabled (c : checkbox) (b : bool) (p : Page) : Page :=
  with_check_box c (QCheckBox.setEnabled b (check_box (ui p) c)) p.
Definition edit_setEnabled (e : lineedit) (b : bool) (p : Page) : Page :=
  with_line_edit e (QLineEdit.setEnabled b (line_edit (ui p) e)) p.
Definition setText (e : lineedit) (s : str) (p : Page) : Page :=
  with_line_edit e (QLineEdit.setText s (line_edit (ui p) e)) p.
Definition setCursorPosition (e : lineedit) (n : Z) (p : Page) : Page :=
  with_line_edit e (QLineEdit.setCursorPosition n (line_edit (ui p) e)) p.

(** *** Enabling and disabling the dependent widgets *)

Definition toggle_file_naming_format (p : Page) : Page :=
  let active := isChecked move_files p || isChecked rename_files p in
  let p := with_button open_script_editor_button active p in
  let p := setEnabled ascii_filenames active p in
  if negb IS_WIN then setEnabled windows_compatibility active p else p.

Definition toggle_file_moving (state : bool) (p : Page) : Page :=
  let p := toggle_file_naming_format p in
  let p := setEnabled delete_empty_dirs state p in
  let p := edit_setEnabled move_files_to state p in
  let p := with_button move_files_to_browse_button state p in
  let p := setEnabled move_additional_files state p in
  edit_setEnabled move_additional_files_pattern state p.

Definition toggle_file_renaming (state : bool) (p : Page) : Page :=
  toggle_file_naming_format p.

Definition enabledSlot (func : bool → Page → Page) (state : bool) (p : Page) : Page :=
  match enabledSlot_arg state with
  | Some a => func a p
  | None => p
  end.

(** The slots connected to the [toggled] signal of a check box. *)
Definition on_toggled (c : checkbox) (state : bool) (p : Page) : Page :=
  match c with
  | move_files => enabledSlot toggle_file_moving state p
  | rename_files => enabledSlot toggle_file_renaming state p
  | _ => p
  end.

(** [self.ui.<c>.setChecked(b)]: the slots of [toggled] run before the
    call returns. *)
Definition setChecked (c : checkbox) (b : bool) (p : Page) : Page :=
  let '(w, emitted) := QCheckBox.setChecked b (check_box (ui p) c) in
  foldl (λ p state, on_toggled c state p) (with_check_box c w p) emitted.

(** *** Signals of the page

    The connections made in [__init__]; [slot] further down is the table
    of the connected methods.  The three signals of the script editor
    reach the page as signals of their own: a call into the editor changes
    the editor, and what the editor emits then is delivered afterwards. *)

Inductive signal :=
  | clicked (c : checkbox)
  | toggled (c : checkbox) (state : bool)
  | editingFinished (e : lineedit)
  | open_script_editor_clicked
  (** with the directory the file dialog returns *)
  | move_files_to_browse_clicked (chosen : str)
  | sample_files_button_clicked
  | currentIndexChanged (index : Z)
  | itemSelectionChanged (l : listbox)
  | signal_save
  | signal_update
  | signal_selection_changed.

(** *** Keeping the script selector and the editor in step *)

(** One round of the loop over the items of the editor's selector. *)
Definition add_preset_item (preset : QComboBox.t)
    (acc : QComboBox.t * list Z) (i : nat) : QComboBox.t * list Z :=
  let title := QComboBox.itemText i preset in
  let script := QComboBox.itemData i preset in
  let '(w, emitted) := QComboBox.addItem title script acc.1 in
  (w, acc.2 ++ emitted).

(** Returns the [currentIndexChanged] signals the selector emitted. *)
Definition update_selector_from_editor (p : Page) : Page * list Z :=
  let preset := preset_naming_scripts (script_editor_page p) in
  let w := QComboBox.blockSignals true (naming_script_selector (ui p)) in
  let '(w, e1) := QComboBox.clear w in
  let '(w, e2) :=
    foldl (add_preset_item preset) (w, []) (seq 0 (QComboBox.count preset)) in
  let '(w, e3) := QComboBox.setCurrentIndex (QComboBox.currentIndex preset) w in
  let w := QComboBox.blockSignals false w in
  (with_selector w p, e1 ++ e2 ++ e3).

Definition update_selector_in_editor (p : Page) : Page :=
  with_editor
    (preset_setCurrentIndex
       (QComboBox.currentIndex (naming_script_selector (ui p)))
       (script_editor_page p)) p.

(** *** Pairing the rows of the two example lists *)

(** Modelled from the spec: [synchronize_selected_example_lines] of the
    script editor dialog, which is not part of this file.  A selection in
    one view sets the current row to the selected index and instructs the
    other view to select the same index, and setting that selection must
    not re-fire the selection event.  Returns the current row, the target
    list and the number of [itemSelectionChanged] signals the target
    emitted. *)
Definition synchronize_selected_example_lines (current_row : Z)
    (source target : QListWidget.t) : Z * QListWidget.t * nat :=
  let current_row := QListWidget.currentRow source in
  let target := QListWidget.blockSignals true target in
  let '(target, emitted) := QListWidget.setCurrentRow current_row target in
  (current_row, QListWidget.blockSignals false target, emitted).

(** The page passes [self.current_row] by value and drops the result. *)
Definition match_lists (source target : listbox) (p : Page) : Page * list signal :=
  let '(_, w, emitted) :=
    synchronize_selected_example_lines (current_row p)
      (list_box (ui p) source) (list_box (ui p) target) in
  (with_list_box target w p, repeat (itemSelectionChanged target) emitted).

Definition match_after_to_before (p : Page) : Page * list signal :=
  match_lists example_filename_before example_filename_after p.

Definition match_before_to_after (p : Page) : Page * list signal :=
  match_lists example_filename_after example_filename_before p.

(** *** The preview *)

(** The dictionary [override] built by [update_examples_from_local]. *)
Definition override (p : Page) : gmap string value :=
  <["ascii_filenames"%string := BoolV (isChecked ascii_filenames p)]>
  (<["move_files"%string := BoolV (isChecked move_files p)]>
  (<["move_files_to"%string := TextV (os_path_normpath (text move_files_to p))]>
  (<["rename_files"%string := BoolV (isChecked rename_files p)]>
  (<["windows_compatibility"%string := BoolV (isChecked windows_compatibility p)]>
   ∅)))).

Definition update_examples_from_local (p : Page) : Page :=
  let p := with_examples (update_examples (override p) (examples p)) p in
  with_editor (editor_display_examples (examples p) (script_editor_page p)) p.

(** The first statement of [display_examples]. *)
Definition reset_current_row (p : Page) : Page := with_current_row (-1) p.

(** The rest of [display_examples]: both lists are rendered again. *)
Definition render_examples (p : Page) : Page :=
  let rendered :=
    update_example_listboxes (list_box (ui p) example_filename_before)
      (list_box (ui p) example_filename_after) (get_examples (examples p)) in
  with_list_box example_filename_after rendered.2
    (with_list_box example_filename_before rendered.1 p).

Definition display_examples (p : Page) : Page :=
  render_examples (reset_current_row p).

Definition show_script_editing_page (p : Page) : Page :=
  update_examples_from_local
    (with_editor (editor_show (script_editor_page p)) p).

Definition save_from_editor (p : Page) : Page :=
  with_script_text (get_script (script_editor_page p)) p.

Definition update_from_editor (p : Page) : Page := display_examples p.

Definition update_example_files (p : Page) : Page :=
  let p := with_examples (update_sample_example_files (examples p)) p in
  with_editor (editor_display_examples (examples p) (script_editor_page p)) p.

Definition move_files_to_browse (chosen : str) (p : Page) : Page :=
  if truthy chosen then setText move_files_to (os_path_normpath chosen) p
  else p.

(** *** Validation *)

Definition check_format (p : Page) : outcome () :=
  match ScriptParser_eval (script_text p) with
  | Evaluated _ => Return ()
  | Failed message => Raise (ScriptCheckError (u "") message)
  end ;;
  if isChecked rename_files p then
    if negb (truthy (strip (script_text p))) then
      Raise (ScriptCheckError (u "")
               (gettext (u "The file naming format must not be empty.")))
    else Return ()
  else Return ().

Definition check (p : Page) : outcome () :=
  check_format p ;;
  if isChecked move_files p && negb (truthy (strip (text move_files_to p))) then
    Raise (OptionsCheckError (gettext (u "Error"))
             (gettext (u "The location to move files to must not be empty.")))
  else Return ().

(** The two validation errors the page raises itself. *)
Definition empty_format_error : exn :=
  ScriptCheckError (u "") (gettext (u "The file naming format must not be empty.")).

Definition empty_destination_error : exn :=
  OptionsCheckError (gettext (u "Error"))
    (gettext (u "The location to move files to must not be empty.")).

(** A text is blank when nothing is left of it after [strip()]. *)
Definition blank (s : str) : bool := negb (truthy (strip s)).

(** [test] catches [ScriptCheckError] only; the second component is an
    exception it lets through. *)
Definition test (p : Page) : Page * option exn :=
  let p := with_renaming_error (QLabel.setStyleSheet (u "") (renaming_error (ui p))) p in
  let p := with_renaming_error (QLabel.setText (u "") (renaming_error (ui p))) p in
  match check_format p with
  | Return _ => (p, None)
  | Raise (ScriptCheckError _ info) =>
      let p := with_renaming_error
                 (QLabel.setStyleSheet STYLESHEET_ERROR (renaming_error (ui p))) p in
      (with_renaming_error (QLabel.setText info (renaming_error (ui p))) p, None)
  | Raise e => (p, Some e)
  end.

Definition check_formats (p : Page) : Page * option exn :=
  match test p with
  | (p, None) => (update_examples_from_local p, None)
  | (p, Some e) => (p, Some e)
  end.

(** [display_error]: script errors are shown next to the format by [test];
    the result is the error handed on to [OptionsPage.display_error], if
    any. *)
Definition display_error (error : exn) : option exn :=
  match error with
  | ScriptCheckError _ _ => None
  | _ => Some error
  end.

(** *** Loading and saving *)

Definition load (config : gmap string value) (p : Page) : Page :=
  let p :=
    if IS_WIN then
      setEnabled windows_compatibility false
        (setChecked windows_compatibility true p)
    else
      setChecked windows_compatibility
        (setting_bool config "windows_compatibility") p in
  let p := setChecked rename_files (setting_bool config "rename_files") p in
  let p := setChecked move_files (setting_bool config "move_files") p in
  let p := setChecked ascii_filenames (setting_bool config "ascii_filenames") p in
  let p := with_script_text (setting_text config "file_naming_format") p in
  let p := setText move_files_to (setting_text config "move_files_to") p in
  let p := setCursorPosition move_files_to 0 p in
  let p := setChecked move_additional_files
             (setting_bool config "move_additional_files") p in
  let p := setText move_additional_files_pattern
             (setting_text config "move_additional_files_pattern") p in
  let p := setChecked delete_empty_dirs (setting_bool config "delete_empty_dirs") p in
  let p := with_editor (editor_load config (script_editor_page p)) p in
  update_examples_from_local p.

(** [save] leaves the page as it is and returns the configuration section
    and the main window it has written to. *)
Definition save (config : gmap string value) (window : MainWindow) (p : Page)
    : gmap string value * MainWindow :=
  let config := <["windows_compatibility"%string :=
                    BoolV (isChecked windows_compatibility p)]> config in
  let config := <["ascii_filenames"%string :=
                    BoolV (isChecked ascii_filenames p)]> config in
  let config := <["rename_files"%string := BoolV (isChecked rename_files p)]> config in
  let config := <["file_naming_format"%string := TextV (strip (script_text p))]> config in
  let window := mkWindow (setting_bool config "rename_files")
                  (enable_moving_action window) in
  let config := <["move_files"%string := BoolV (isChecked move_files p)]> config in
  let config := <["move_files_to"%string :=
                    TextV (os_path_normpath (text move_files_to p))]> config in
  let config := <["move_additional_files"%string :=
                    BoolV (isChecked move_additional_files p)]> config in
  let config := <["move_additional_files_pattern"%string :=
                    TextV (text move_additional_files_pattern p)]> config in
  let config := <["delete_empty_dirs"%string :=
                    BoolV (isChecked delete_empty_dirs p)]> config in
  let config := <["file_naming_scripts"%string :=
                    ListV (naming_scripts (script_editor_page p))]> config in
  let config := <["selected_file_naming_script_id"%string :=
                    TextV (selected_script_id (script_editor_page p))]> config in
  let window := mkWindow (enable_renaming_action window)
                  (setting_bool config "move_files") in
  (config, window).

(** What the configuration section holds after [load] followed by [save]. *)
Definition load_save (window : MainWindow) (p : Page)
    (config : gmap string value) : gmap string value :=
  (save config window (load config p)).1.

(** *** Construction *)

(** [__init__]: the attributes are set, the selector is filled from the
    editor, and [current_row] is set last. *)
Definition init : Page :=
  let examples := new_examples in
  let p := mkPage (u "") (-1) setupUi (new_editor examples) examples in
  with_current_row (-1) (update_selector_from_editor p).1.

(** *** Delivery of signals *)

(** The method each signal is connected to in [__init__], with the signals
    of the page's own widgets that the method makes them emit. *)
Definition slot (s : signal) (p : Page) : Page * list signal :=
  match s with
  | clicked ascii_filenames | clicked windows_compatibility
  | clicked rename_files | clicked move_files
  | editingFinished move_files_to => (update_examples_from_local p, [])
  | clicked _ | editingFinished _ => (p, [])
  | toggled c state => (on_toggled c state p, [])
  | open_script_editor_clicked => (show_script_editing_page p, [])
  | move_files_to_browse_clicked chosen => (move_files_to_browse chosen p, [])
  | sample_files_button_clicked => (update_example_files p, [])
  | currentIndexChanged _ => (update_selector_in_editor p, [])
  | itemSelectionChanged example_filename_after => match_before_to_after p
  | itemSelectionChanged example_filename_before => match_after_to_before p
  | signal_save => (save_from_editor p, [])
  | signal_update => (update_from_editor p, [])
  | signal_selection_changed =>
      let '(p, emitted) := update_selector_from_editor p in
      (p, currentIndexChanged <$> emitted)
  end.

(** Signals are delivered at once, a signal emitted by a slot before the
    signals still waiting.  Returns the page and the signals delivered, in
    order; delivery stops when the fuel is used up. *)
Fixpoint deliver (fuel : nat) (queue : list signal) (p : Page)
    : Page * list signal :=
  match fuel, queue with
  | S fuel, s :: queue =>
      let '(p, emitted) := slot s p in
      let '(p, trace) := deliver fuel (emitted ++ queue) p in
      (p, s :: trace)
  | _, _ => (p, [])
  end.

(** *** What happens to a page *)

Inductive event :=
  (** a signal reaches the page *)
  | Emitted (s : signal)
  (** the user picks a row of an example list *)
  | SelectRow (l : listbox) (row : Z)
  (** the user picks an entry of the script selector *)
  | SelectScript (index : Z)
  (** the user toggles a check box *)
  | Click (c : checkbox)
  (** the user edits a text field and leaves it *)
  | Edit (e : lineedit) (s : str)
  (** the options dialog calls a method of the page *)
  | Load (config : gmap string value)
  | Test
  | CheckFormats.

(** The signals a user action makes the widgets emit, after the change of
    the widget itself. *)
Definition act (e : event) (p : Page) : Page * list signal :=
  match e with
  | Emitted s => (p, [s])
  | SelectRow l row =>
      let '(w, n) := QListWidget.setCurrentRow row (list_box (ui p) l) in
      (with_list_box l w p, repeat (itemSelectionChanged l) n)
  | SelectScript index =>
      let '(w, emitted) :=
        QComboBox.setCurrentIndex index (naming_script_selector (ui p)) in
      (with_selector w p, currentIndexChanged <$> emitted)
  | Click c =>
      (setChecked c (negb (isChecked c p)) p, [clicked c])
  | Edit e s => (setText e s p, [editingFinished e])
  | Load config => (load config p, [])
  | Test => ((test p).1, [])
  | CheckFormats => ((check_formats p).1, [])
  end.

Definition step (p : Page) (e : event) : Page :=
  let '(p, queue) := act e p in
  (deliver (2 * length queue) queue p).1.

Definition run (events : list event) (p : Page) : Page := foldl step p events.
End RenamingOptionsPage.

(** ** A host to run the page on

    A POSIX platform whose scripting engine only checks that parentheses
    are balanced, with an editor that is no more than its selector.  It
    serves to evaluate the page on concrete inputs. *)

Module Sample.

Fixpoint balanced (depth : nat) (s : str) : bool :=
  match s with
  | [] => Nat.eqb depth 0
  | c :: s' =>
      if (c =? 40)%N then balanced (S depth) s'
      else if (c =? 41)%N then
        match depth with
        | O => false
        | S depth' => balanced depth' s'
        end
      else balanced depth s'
  end.

Definition eval (script : str) : eval_result :=
  if balanced 0 script then Evaluated script
  else Failed (u "Unbalanced parentheses").

Definition listboxes (before after : QListWidget.t) (examples : list (str * str))
    : QListWidget.t * QListWidget.t :=
  (QListWidget.mk (fst <$> examples) (-1) (QListWidget.signalsBlocked before),
   QListWidget.mk (snd <$> examples) (-1) (QListWidget.signalsBlocked after)).

Definition widgets : Ui :=
  mkUi (λ _, QCheckBox.mk false true)
    (λ _, QLineEdit.mk [] 0 true)
    (λ _, true)
    (QComboBox.mk [] (-1) false)
    (λ _, QListWidget.mk [] (-1) false)
    (QLabel.mk [] []).

#[global] Instance host : Host := {|
  IS_WIN := false;
  os_path_normpath := posixpath.normpath;
  gettext := λ message, message;
  DEFAULT_FILE_NAMING_FORMAT := u "%artist%/%title%";
  default_music_dir := u "/home/user/Music";
  STYLESHEET_ERROR := u "QWidget { background-color: #f55; }";
  ScriptParser_eval := eval;
  enabledSlot_arg := λ state, Some state;
  Examples := list (str * str);
  update_examples := λ _ examples, examples;
  update_sample_example_files := λ examples, examples;
  get_examples := λ examples, examples;
  Editor := QComboBox.t;
  preset_naming_scripts := λ editor, editor;
  naming_scripts := λ editor, snd <$> QComboBox.items editor;
  selected_script_id := λ editor,
    QComboBox.itemData (Z.to_nat (QComboBox.currentIndex editor)) editor;
  get_script := λ editor,
    QComboBox.itemData (Z.to_nat (QComboBox.currentIndex editor)) editor;
  editor_load := λ _ editor, editor;
  editor_show := λ editor, editor;
  editor_display_examples := λ _ editor, editor;
  preset_setCurrentIndex := λ index editor, (QComboBox.setCurrentIndex index editor).1;
  update_example_listboxes := listboxes;
  setupUi := widgets;
  new_examples := [(u "old.mp3", u "Artist/Title.mp3")];
  new_editor := λ _,
    QComboBox.mk [(u "Preset 1", u "%artist%/%title%"); (u "Preset 2", u "%title%")]
      1 false
|}.

(** A page with the given check boxes ticked, naming script and
    destination. *)
Definition page (rename move : bool) (script destination : str) : Page :=
  setText move_files_to destination
    (with_check_box move_files (QCheckBox.mk move true)
       (with_check_box rename_files (QCheckBox.mk rename true)
          (with_script_text script init))).

(** A format the engine rejects, with moving enabled and a blank
    destination. *)
Definition rejected_format_blank_destination : Page :=
  page false true (u "$invalid(") (u "  ").

(** A stored configuration: a format with surrounding blanks and a
    destination with a doubled separator. *)
Definition stored : gmap string value :=
  <["file_naming_format"%string := TextV (u " %artist%/%title% ")]>
  (<["move_files_to"%string := TextV (u "/music//rock")]> ∅).

End Sample.

(** * Properties *)

Example normpath_examples :
  posixpath.normpath (u "/music//rock/./live/../") = u "/music/rock"
  ∧ posixpath.normpath (u "//a/../..") = u "//"
  ∧ posixpath.normpath (u "../x") = u "../x"
  ∧ posixpath.normpath (u "a/..") = u "."
  ∧ strip (u "  %artist% ") = u "%artist%"
  ∧ strip (u "   ") = [].
Proof. repeat split; reflexivity. Qed.

(** ** Path normalization *)

Section Normpath.
Import posixpath.

Lemma split_no_sep (s : str) : Forall (λ c, sep ∉ c) (split s).
Proof.
  induction s as [|c s IH]; simpl.
  - repeat constructor. apply not_elem_of_nil.
  - destruct (N.eqb_spec c sep) as [->|Hne].
    + constructor; [apply not_elem_of_nil | done].
    + destruct (split s) as [|h t].
      * repeat constructor. intros Heq%list_elem_of_singleton. congruence.
      * apply Forall_cons in IH as [Hh Ht]. constructor; [|done].
        intros [Heq|?]%elem_of_cons; [congruence | done].
Qed.

Lemma removelast_Forall {A} (P : A → Prop) (l : list A) :
  Forall P l → Forall P (removelast l).
Proof.
  induction 1 as [|x l Hx Hl IH]; simpl; [constructor|].
  destruct l; [constructor | by constructor].
Qed.

Lemma normpath_step_components (slashes : nat) (acc : list str) (comp : str) :
  sep ∉ comp → Forall component acc →
  Forall component (normpath_step slashes acc comp).
Proof.
  intros Hsep Hacc. unfold normpath_step, str_eqb.
  repeat case_bool_decide; simpl; try done;
    repeat (case_match; try done);
    try (apply Forall_app; split; [done | by repeat constructor]);
    by apply removelast_Forall.
Qed.

Lemma normpath_fold_components (slashes : nat) (comps acc : list str) :
  Forall (λ c, sep ∉ c) comps → Forall component acc →
  Forall component (fold_left (normpath_step slashes) comps acc).
Proof.
  intros Hcomps. revert acc.
  induction Hcomps as [|c comps Hc _ IH]; intros acc Hacc; simpl; [done|].
  apply IH. by apply normpath_step_components.
Qed.

Lemma join_components_nonempty (comps : list str) :
  Forall component comps → comps ≠ [] → join comps ≠ [].
Proof.
  intros Hall Hne. destruct Hall as [|c rest [Hc _] _]; [done|].
  destruct c; [done|]. destruct rest; done.
Qed.

(** [posixpath.normpath] returns a normalized path, never the empty
    string. *)
Lemma normpath_normalized (path : str) : normalized (normpath path).
Proof.
  unfold normpath, str_eqb. case_bool_decide as Hempty.
  - exists 0%nat, []. repeat split; [lia | constructor].
  - set (slashes := if startswith [sep] path then _ else _).
    set (comps := fold_left _ _ _).
    assert (slashes ≤ 2)%nat as Hle
      by (subst slashes; repeat case_match; lia).
    assert (Forall component comps) as Hcomps
      by (apply normpath_fold_components; [apply split_no_sep | constructor]).
    exists slashes, comps. repeat split; [done..|].
    case_decide as Hzero.
    + destruct Hzero as [-> ->]. done.
    + destruct slashes as [|n]; simpl; [|done].
      destruct (join comps) eqn:Hjoin; simpl; [|done].
      exfalso. apply (join_components_nonempty comps); [done| |done].
      intros ->. by apply Hzero.
Qed.
End Normpath.

(** ** Validation *)

Section Validation.
Context `{Host}.

Lemma blank_spec (s : str) : blank s = true ↔ strip s = [].
Proof.
  unfold blank. destruct (strip s); simpl; split; congruence.
Qed.

Lemma check_format_accepted (p : Page) (output : str) :
  ScriptParser_eval (script_text p) = Evaluated output →
  check_format p =
    if isChecked rename_files p && blank (script_text p)
    then Raise empty_format_error else Return ().
Proof.
  intros Heval. unfold check_format, blank. rewrite Heval. simpl.
  destruct (isChecked rename_files p); simpl; [|done].
  destruct (truthy (strip (script_text p))); done.
Qed.

Lemma check_format_rejected (p : Page) (message : str) :
  ScriptParser_eval (script_text p) = Failed message →
  check_format p = Raise (ScriptCheckError (u "") message).
Proof. intros Heval. unfold check_format. by rewrite Heval. Qed.

Lemma check_after_format (p : Page) :
  check p =
    match check_format p with
    | Return _ =>
        if isChecked move_files p && blank (text move_files_to p)
        then Raise empty_destination_error else Return ()
    | Raise e => Raise e
    end.
Proof. unfold check. destruct (check_format p) as [[]|e]; done. Qed.

(** C1. With a naming format that is empty or only whitespace (and that
    the scripting engine evaluates without an error), [check_format]
    depends on the rename check box alone: ticked, it raises the
    empty-format error; not ticked, it returns normally. *)
Theorem check_format_blank (p : Page) (output : str) :
  strip (script_text p) = [] →
  ScriptParser_eval (script_text p) = Evaluated output →
  (isChecked rename_files p = true → check_format p = Raise empty_format_error)
  ∧ (isChecked rename_files p = false → check_format p = Return ()).
Proof.
  intros Hblank Heval. apply blank_spec in Hblank.
  rewrite (check_format_accepted p output Heval), Hblank.
  split; intros ->; done.
Qed.

(** C2. [check_format] hands the naming format to the scripting engine
    first.  A failure of the engine is raised as a script error carrying
    the engine's message, whatever the rename check box says and even for
    a blank format; when the engine evaluates the format, what it
    evaluates to plays no part, and the only error left is the
    empty-format error. *)
Theorem check_format_engine_first (p : Page) :
  (∀ message, ScriptParser_eval (script_text p) = Failed message →
     check_format p = Raise (ScriptCheckError (u "") message))
  ∧ (∀ output, ScriptParser_eval (script_text p) = Evaluated output →
       check_format p =
         if isChecked rename_files p && blank (script_text p)
         then Raise empty_format_error else Return ()).
Proof.
  split; [apply check_format_rejected | apply check_format_accepted].
Qed.

(** C3, as the code has it. [check] stops at the first failure: when
    [check_format] raises, [check] raises that same error and nothing
    else, also with moving enabled and a blank destination; the
    destination is looked at only after the format has passed. *)
Theorem check_stops_at_format_error (p : Page) (e : exn) :
  check_format p = Raise e →
  check p = Raise e ∧ raised (check p) = [e].
Proof. intros Hfmt. rewrite check_after_format, Hfmt. done. Qed.

(** C4. When the format passes, [check] raises the empty-destination
    error exactly when moving is enabled and the destination is blank, and
    returns normally otherwise. *)
Theorem check_destination (p : Page) :
  check_format p = Return () →
  (check p = Raise empty_destination_error
     ↔ isChecked move_files p = true ∧ strip (text move_files_to p) = [])
  ∧ (check p = Return ()
     ↔ ¬ (isChecked move_files p = true ∧ strip (text move_files_to p) = [])).
Proof.
  intros Hfmt. rewrite check_after_format, Hfmt, <- blank_spec.
  destruct (isChecked move_files p), (blank (text move_files_to p));
    simpl; repeat split; intros; try done; intuition congruence.
Qed.

End Validation.

(** The page of [check_format_blank] on the sample host: a format of two
    spaces, renaming on and off. *)
Lemma check_format_blank_witness :
  check_format (Sample.page true false (u "  ") (u "/music")) = Raise empty_format_error
  ∧ check_format (Sample.page false false (u "  ") (u "/music")) = Return ().
Proof.
  split.
  - apply (check_format_blank (Sample.page true false (u "  ") (u "/music")) (u "  "));
      vm_compute; reflexivity.
  - apply (check_format_blank (Sample.page false false (u "  ") (u "/music")) (u "  "));
      vm_compute; reflexivity.
Defined.

(** An unbalanced format is rejected with the engine's message while
    renaming is off, and a balanced one passes. *)
Lemma check_format_engine_first_witness :
  check_format (Sample.page false false (u "$invalid(") (u "/music"))
    = Raise (ScriptCheckError (u "") (u "Unbalanced parentheses"))
  ∧ check_format (Sample.page true false (u "$if(%a%,b)") (u "/music")) = Return ().
Proof.
  split.
  - apply (check_format_engine_first (Sample.page false false (u "$invalid(") (u "/music")));
      vm_compute; reflexivity.
  - apply (proj2 (check_format_engine_first
                    (Sample.page true false (u "$if(%a%,b)") (u "/music")))
             (u "$if(%a%,b)")).
    vm_compute; reflexivity.
Defined.

(** C3 as stated does not hold: with a rejected format, moving enabled
    and a blank destination, [check] lets the caller see the format error
    and not the empty-destination error. *)
Lemma check_hides_destination_error :
  isChecked move_files Sample.rejected_format_blank_destination = true
  ∧ strip (text move_files_to Sample.rejected_format_blank_destination) = []
  ∧ raised (check_format Sample.rejected_format_blank_destination)
      = [ScriptCheckError (u "") (u "Unbalanced parentheses")]
  ∧ empty_destination_error ∉ raised (check Sample.rejected_format_blank_destination).
Proof.
  repeat split; try (vm_compute; reflexivity).
  intros Hin. vm_compute in Hin.
  apply list_elem_of_In in Hin. destruct Hin as [Heq|[]]. discriminate Heq.
Qed.

Lemma check_stops_at_format_error_witness :
  check Sample.rejected_format_blank_destination
    = Raise (ScriptCheckError (u "") (u "Unbalanced parentheses")).
Proof.
  apply (check_stops_at_format_error Sample.rejected_format_blank_destination).
  vm_compute; reflexivity.
Defined.

(** Moving enabled with a destination of two spaces fails; a real
    destination passes. *)
Lemma check_destination_witness :
  check (Sample.page false true (u "%title%") (u "  ")) = Raise empty_destination_error
  ∧ check (Sample.page false true (u "%title%") (u "/music")) = Return ().
Proof.
  split.
  - apply (check_destination (Sample.page false true (u "%title%") (u "  ")));
      [vm_compute; reflexivity | split; vm_compute; reflexivity].
  - apply (proj2 (check_destination (Sample.page false true (u "%title%") (u "/music"))
                    ltac:(vm_compute; reflexivity))).
    intros [_ Hblank]. vm_compute in Hblank. discriminate Hblank.
Defined.

(** ** Texts in a line edit *)

Section LineEditText.
Import QString.

Lemma is_high_spec (unit : N) : is_high unit = true ↔ (55296 ≤ unit ≤ 56319)%N.
Proof. unfold is_high. rewrite andb_true_iff, !N.leb_le. done. Qed.

Lemma is_low_spec (unit : N) : is_low unit = true ↔ (56320 ≤ unit ≤ 57343)%N.
Proof. unfold is_low. rewrite andb_true_iff, !N.leb_le. done. Qed.

Lemma encode_small (c : N) : (c < 65536)%N → encode c = [c].
Proof. intros Hc. unfold encode. by rewrite (proj2 (N.ltb_lt _ _) Hc). Qed.

Lemma encode_large (c : N) :
  (65536 ≤ c)%N →
  ∃ high low, encode c = [high; low] ∧ is_high high = true ∧ is_low low = true
    ∧ ((c < 1114112)%N → combine high low = c).
Proof.
  intros Hc. unfold encode. rewrite (proj2 (N.ltb_ge _ _) Hc).
  eexists _, _. split; [done|].
  pose proof (N.div_mod' (c - 65536) 1024) as Hdivmod.
  assert ((c < 1114112)%N → ((c - 65536) / 1024) mod 1024 = (c - 65536) / 1024)%N
    as Hsmall by (intros Hmax; apply N.mod_small, N.Div0.div_lt_upper_bound; lia).
  pose proof (N.mod_upper_bound ((c - 65536) / 1024) 1024 ltac:(done)) as Hhigh.
  pose proof (N.mod_upper_bound (c - 65536) 1024 ltac:(done)) as Hlow.
  set (q := ((c - 65536) / 1024)%N) in *.
  set (q' := (q mod 1024)%N) in *.
  set (r := ((c - 65536) mod 1024)%N) in *.
  clearbody q' r q.
  rewrite is_high_spec, is_low_spec.
  split; [lia|]. split; [lia|].
  intros Hmax. unfold combine. rewrite Hsmall by done. lia.
Qed.

Lemma encode_combine (high low : N) :
  is_high high = true → is_low low = true → encode (combine high low) = [high; low].
Proof.
  rewrite is_high_spec, is_low_spec. intros Hh Hl. unfold encode, combine.
  rewrite (proj2 (N.ltb_ge _ _)) by lia.
  replace (65536 + (high - 55296) * 1024 + (low - 56320) - 65536)%N
    with ((low - 56320) + (high - 55296) * 1024)%N by lia.
  rewrite N.div_add, N.Div0.mod_add by done.
  rewrite (N.div_small (low - 56320) 1024), (N.mod_small (low - 56320) 1024) by lia.
  rewrite N.add_0_l, (N.mod_small (high - 55296) 1024) by lia.
  f_equal; [lia | f_equal; lia].
Qed.

Lemma combine_bounds (high low : N) :
  is_high high = true → is_low low = true →
  (65536 ≤ combine high low < 1114112)%N.
Proof. rewrite is_high_spec, is_low_spec. unfold combine. lia. Qed.

Lemma fromStr_cons (c : N) (s : str) : fromStr (c :: s) = encode c ++ fromStr s.
Proof. done. Qed.

Lemma fromStr_app (s t : str) : fromStr (s ++ t) = fromStr s ++ fromStr t.
Proof. unfold fromStr. apply flat_map_app. Qed.

Lemma fromStr_units (s : str) : Forall (λ unit, (unit < 65536)%N) (fromStr s).
Proof.
  induction s as [|c s IH]; [constructor|].
  rewrite fromStr_cons. apply Forall_app. split; [|done].
  destruct (N.lt_ge_cases c 65536) as [Hc|Hc].
  - rewrite encode_small by done. by repeat constructor.
  - destruct (encode_large c Hc) as (high & low & -> & Hh & Hl & _).
    apply is_high_spec in Hh. apply is_low_spec in Hl.
    repeat constructor; lia.
Qed.

Lemma left_units (P : N → Prop) (n : N) (units : list N) :
  Forall P units → Forall P (left n units).
Proof.
  intros Hall. revert n.
  induction Hall as [|unit rest Hu _ IH]; intros n; simpl; [constructor|].
  destruct (n =? 0)%N; by constructor.
Qed.

Lemma left_left (n : N) (units : list N) : left n (left n units) = left n units.
Proof.
  revert n. induction units as [|unit rest IH]; intros n; simpl; [done|].
  destruct (n =? 0)%N eqn:Hn; simpl; [done|]. by rewrite Hn, IH.
Qed.

Lemma left_all (n : N) (units : list N) :
  (N.of_nat (length units) ≤ n)%N → left n units = units.
Proof.
  revert n. induction units as [|unit rest IH]; intros n Hn; simpl in *; [done|].
  destruct (N.eqb_spec n 0) as [->|Hne]; [lia|].
  rewrite IH; [done | lia].
Qed.

Lemma length_left (n : N) (units : list N) :
  (N.of_nat (length (left n units)) ≤ n)%N.
Proof.
  revert n. induction units as [|unit rest IH]; intros n; simpl; [lia|].
  destruct (N.eqb_spec n 0) as [->|Hne]; simpl; [lia|].
  specialize (IH (n - 1)%N). lia.
Qed.

Lemma toStr_pair (unit low : N) (rest : list N) :
  toStr (unit :: low :: rest) =
    if is_high unit && is_low low then combine unit low :: toStr rest
    else unit :: toStr (low :: rest).
Proof. done. Qed.

(** Code units that went through [toStr] come back from [fromStr]. *)
Lemma fromStr_toStr (units : list N) :
  Forall (λ unit, (unit < 65536)%N) units → fromStr (toStr units) = units.
Proof.
  remember (length units) as n eqn:Hlen.
  revert units Hlen. induction (lt_wf n) as [n _ IH]. intros units -> Hall.
  destruct units as [|unit [|low rest]]; [done|..].
  - apply Forall_cons in Hall as [Hu _]. cbn [toStr]. rewrite fromStr_cons.
    by rewrite encode_small.
  - apply Forall_cons in Hall as [Hu Hrest].
    rewrite toStr_pair. destruct (is_high unit && is_low low) eqn:Hpair.
    + apply andb_true_iff in Hpair as [Hh Hl].
      apply Forall_cons in Hrest as [_ Hrest].
      rewrite fromStr_cons, encode_combine by done.
      by rewrite (IH (length rest) ltac:(simpl; lia) rest eq_refl Hrest).
    + rewrite fromStr_cons, encode_small by done.
      by rewrite (IH (length (low :: rest)) ltac:(simpl; lia) (low :: rest)
                    eq_refl Hrest).
Qed.

(** The line edit holds the first [maxLength] code units of the text. *)
Lemma fromStr_fit (s : str) :
  fromStr (QLineEdit.fit s) = left QLineEdit.maxLength (fromStr s).
Proof.
  unfold QLineEdit.fit. apply fromStr_toStr, left_units, fromStr_units.
Qed.

Lemma fit_idempotent (s : str) : QLineEdit.fit (QLineEdit.fit s) = QLineEdit.fit s.
Proof.
  unfold QLineEdit.fit at 1. by rewrite fromStr_fit, left_left.
Qed.

Lemma toStr_fromStr (s : str) : well_formed s = true → toStr (fromStr s) = s.
Proof.
  induction s as [|c rest IH]; [done|].
  cbn [well_formed]. rewrite !andb_true_iff, negb_true_iff, N.ltb_lt.
  intros [[Hmax Hpair] Hrest]. specialize (IH Hrest).
  rewrite fromStr_cons.
  destruct (N.lt_ge_cases c 65536) as [Hc|Hc].
  - rewrite encode_small by done. cbn [app toStr].
    destruct rest as [|low rest'].
    { done. }
    destruct (fromStr (low :: rest')) as [|unit units] eqn:Hunits.
    { by rewrite <- IH. }
    assert (is_high c && is_low unit = false) as ->; [|by rewrite IH].
    rewrite fromStr_cons in Hunits.
    destruct (N.lt_ge_cases low 65536) as [Hl|Hl].
    + rewrite encode_small in Hunits by done. by injection Hunits as <- _.
    + destruct (encode_large low Hl) as (h & l & Henc & Hh & _).
      rewrite Henc in Hunits. injection Hunits as <- _.
      apply is_high_spec in Hh. apply andb_false_iff. right.
      apply not_true_iff_false. rewrite is_low_spec. lia.
  - destruct (encode_large c Hc) as (high & low & -> & Hh & Hl & Hcombine).
    cbn [app toStr]. by rewrite Hh, Hl, Hcombine, IH.
Qed.

Lemma toStr_fromStr_well_formed (s : str) :
  toStr (fromStr s) = s → well_formed s = true.
Proof.
  induction s as [|c rest IH]; [done|].
  rewrite fromStr_cons. cbn [well_formed].
  destruct (N.lt_ge_cases c 65536) as [Hc|Hc].
  - rewrite encode_small by done. cbn [app toStr].
    destruct (fromStr rest) as [|unit units] eqn:Hunits.
    + intros [= <-]. rewrite (proj2 (N.ltb_lt _ _)) by lia.
      by rewrite andb_false_r.
    + destruct (is_high c && is_low unit) eqn:Hpair.
      * apply andb_true_iff in Hpair as [Hh Hl].
        pose proof (combine_bounds c unit Hh Hl). intros [= Heq _]. lia.
      * intros [= Heq]. rewrite IH by done.
        rewrite (proj2 (N.ltb_lt _ _)) by lia.
        rewrite andb_true_r. cbn [andb]. apply negb_true_iff.
        destruct rest as [|low rest']; [by rewrite andb_false_r|].
        rewrite fromStr_cons in Hunits.
        destruct (N.lt_ge_cases low 65536) as [Hl|Hl].
        -- rewrite encode_small in Hunits by done. by injection Hunits as <- _.
        -- apply andb_false_iff. right.
           apply not_true_iff_false. rewrite is_low_spec. lia.
  - destruct (encode_large c Hc) as (high & low & -> & Hh & Hl & _).
    cbn [app toStr]. rewrite Hh, Hl. cbn [andb]. intros [= Heq Hrest].
    pose proof (combine_bounds high low Hh Hl).
    rewrite IH by done. rewrite (proj2 (N.ltb_lt _ _)) by lia.
    rewrite andb_true_r. cbn [andb]. apply negb_true_iff.
    apply andb_false_iff. left.
    apply not_true_iff_false. rewrite is_high_spec. lia.
Qed.

(** The texts a line edit holds unchanged. *)
Lemma fit_fixed (s : str) :
  QLineEdit.fit s = s
  ↔ (N.of_nat (length (fromStr s)) ≤ QLineEdit.maxLength)%N ∧ well_formed s = true.
Proof.
  split.
  - intros Hfit.
    pose proof (fromStr_fit s) as Hunits. rewrite Hfit in Hunits.
    assert (N.of_nat (length (fromStr s)) ≤ QLineEdit.maxLength)%N as Hlen
      by (rewrite Hunits; apply length_left).
    split; [done|]. apply toStr_fromStr_well_formed.
    unfold QLineEdit.fit in Hfit. by rewrite left_all in Hfit.
  - intros [Hlen Hwf]. unfold QLineEdit.fit.
    by rewrite left_all, toStr_fromStr.
Qed.
End LineEditText.

(** ** What the methods leave alone *)

Section Frame.
Context `{Host}.

#[local] Instance same_values_equiv : Equivalence same_values.
Proof.
  split.
  - by intros p.
  - intros p q (? & ? & ? & ? & ? & ?). by repeat split.
  - intros p q r (Hc & He & ? & ? & ? & ?) (Hc' & He' & ? & ? & ? & ?).
    repeat split; congruence.
Qed.

Lemma fn_insert_lookup {A B} `{EqDecision A} (f : A → B) a b a' :
  (<[a := b]> f) a' = if decide (a = a') then b else f a'.
Proof. done. Qed.

Ltac same_values_by_cases :=
  repeat split; try done;
  intros x; unfold isChecked, text; cbn; rewrite fn_insert_lookup;
  case_decide; subst; done.

Lemma setEnabled_same_values c b p : same_values (setEnabled c b p) p.
Proof. same_values_by_cases. Qed.

Lemma edit_setEnabled_same_values e b p : same_values (edit_setEnabled e b p) p.
Proof. same_values_by_cases. Qed.

Lemma with_button_same_values b enabled p : same_values (with_button b enabled p) p.
Proof. same_values_by_cases. Qed.

Lemma toggle_file_naming_format_same_values p :
  same_values (toggle_file_naming_format p) p.
Proof.
  unfold toggle_file_naming_format.
  destruct IS_WIN; simpl;
    rewrite ?setEnabled_same_values, ?with_button_same_values; done.
Qed.

Lemma toggle_file_moving_same_values state p :
  same_values (toggle_file_moving state p) p.
Proof.
  unfold toggle_file_moving.
  by rewrite !edit_setEnabled_same_values, !setEnabled_same_values,
    with_button_same_values, edit_setEnabled_same_values,
    setEnabled_same_values, toggle_file_naming_format_same_values.
Qed.

Lemma on_toggled_same_values c state p : same_values (on_toggled c state p) p.
Proof.
  unfold on_toggled, enabledSlot, toggle_file_renaming.
  destruct c, (enabledSlot_arg state); try done;
    auto using toggle_file_moving_same_values,
      toggle_file_naming_format_same_values.
Qed.

(** [setChecked] changes the one check box and nothing else that is
    saved. *)
Lemma setChecked_same_values c b p :
  same_values (setChecked c b p)
    (with_check_box c (QCheckBox.mk b (isEnabled c p)) p).
Proof.
  unfold setChecked, QCheckBox.setChecked. simpl.
  case_bool_decide; simpl; [done|]. apply on_toggled_same_values.
Qed.

Lemma isChecked_with_check_box c w p c' :
  isChecked c' (with_check_box c w p) =
    if decide (c = c') then QCheckBox.isChecked w else isChecked c' p.
Proof. unfold isChecked. cbn. rewrite fn_insert_lookup. by case_decide. Qed.

Lemma isChecked_setChecked c b p c' :
  isChecked c' (setChecked c b p) = if decide (c = c') then b else isChecked c' p.
Proof.
  destruct (setChecked_same_values c b p) as [Hc _].
  by rewrite Hc, isChecked_with_check_box.
Qed.

Lemma text_setChecked c b p e : text e (setChecked c b p) = text e p.
Proof. destruct (setChecked_same_values c b p) as (_ & He & _). by rewrite He. Qed.

Lemma script_text_setChecked c b p :
  script_text (setChecked c b p) = script_text p.
Proof. by destruct (setChecked_same_values c b p) as (_ & _ & ? & _). Qed.

Lemma current_row_setChecked c b p :
  current_row (setChecked c b p) = current_row p.
Proof. by destruct (setChecked_same_values c b p) as (_ & _ & _ & ? & _). Qed.

Lemma text_setText e s p e' :
  text e' (setText e s p) = if decide (e = e') then QLineEdit.fit s else text e' p.
Proof. unfold text. cbn. rewrite fn_insert_lookup. by case_decide. Qed.

Lemma text_setCursorPosition e n p e' :
  text e' (setCursorPosition e n p) = text e' p.
Proof. unfold text. cbn. rewrite fn_insert_lookup. case_decide; by subst. Qed.

(** The preview, the editor and the naming script are no widgets. *)
Lemma isChecked_update_examples_from_local c p :
  isChecked c (update_examples_from_local p) = isChecked c p.
Proof. done. Qed.
Lemma isEnabled_update_examples_from_local c p :
  isEnabled c (update_examples_from_local p) = isEnabled c p.
Proof. done. Qed.
Lemma text_update_examples_from_local e p :
  text e (update_examples_from_local p) = text e p.
Proof. done. Qed.
Lemma script_text_update_examples_from_local p :
  script_text (update_examples_from_local p) = script_text p.
Proof. done. Qed.
Lemma current_row_update_examples_from_local p :
  current_row (update_examples_from_local p) = current_row p.
Proof. done. Qed.

Lemma isChecked_with_editor c x p : isChecked c (with_editor x p) = isChecked c p.
Proof. done. Qed.
Lemma isEnabled_with_editor c x p : isEnabled c (with_editor x p) = isEnabled c p.
Proof. done. Qed.
Lemma text_with_editor e x p : text e (with_editor x p) = text e p.
Proof. done. Qed.
Lemma script_text_with_editor x p : script_text (with_editor x p) = script_text p.
Proof. done. Qed.
Lemma current_row_with_editor x p : current_row (with_editor x p) = current_row p.
Proof. done. Qed.

Lemma isChecked_with_script_text c s p :
  isChecked c (with_script_text s p) = isChecked c p.
Proof. done. Qed.
Lemma isEnabled_with_script_text c s p :
  isEnabled c (with_script_text s p) = isEnabled c p.
Proof. done. Qed.
Lemma text_with_script_text e s p : text e (with_script_text s p) = text e p.
Proof. done. Qed.
Lemma script_text_with_script_text s p : script_text (with_script_text s p) = s.
Proof. done. Qed.
Lemma current_row_with_script_text s p :
  current_row (with_script_text s p) = current_row p.
Proof. done. Qed.

Lemma isChecked_setText e s p c : isChecked c (setText e s p) = isChecked c p.
Proof. done. Qed.
Lemma isEnabled_setText e s p c : isEnabled c (setText e s p) = isEnabled c p.
Proof. done. Qed.
Lemma script_text_setText e s p : script_text (setText e s p) = script_text p.
Proof. done. Qed.
Lemma current_row_setText e s p : current_row (setText e s p) = current_row p.
Proof. done. Qed.

Lemma isChecked_setCursorPosition e n p c :
  isChecked c (setCursorPosition e n p) = isChecked c p.
Proof. done. Qed.
Lemma isEnabled_setCursorPosition e n p c :
  isEnabled c (setCursorPosition e n p) = isEnabled c p.
Proof. done. Qed.
Lemma script_text_setCursorPosition e n p :
  script_text (setCursorPosition e n p) = script_text p.
Proof. done. Qed.
Lemma current_row_setCursorPosition e n p :
  current_row (setCursorPosition e n p) = current_row p.
Proof. done. Qed.

Lemma isChecked_setEnabled c b p c' :
  isChecked c' (setEnabled c b p) = isChecked c' p.
Proof. by destruct (setEnabled_same_values c b p) as [Hc _]. Qed.
Lemma isEnabled_setEnabled c b p : isEnabled c (setEnabled c b p) = b.
Proof. unfold isEnabled. cbn. by rewrite fn_insert_lookup, decide_True. Qed.
Lemma text_setEnabled c b p e : text e (setEnabled c b p) = text e p.
Proof. done. Qed.
Lemma script_text_setEnabled c b p : script_text (setEnabled c b p) = script_text p.
Proof. done. Qed.
Lemma current_row_setEnabled c b p : current_row (setEnabled c b p) = current_row p.
Proof. done. Qed.

End Frame.

Create Rewrite HintDb frame.

#[global] Hint Rewrite
  @isChecked_update_examples_from_local @isEnabled_update_examples_from_local
  @text_update_examples_from_local @script_text_update_examples_from_local
  @current_row_update_examples_from_local
  @isChecked_with_editor @isEnabled_with_editor @text_with_editor
  @script_text_with_editor @current_row_with_editor
  @isChecked_with_script_text @isEnabled_with_script_text @text_with_script_text
  @script_text_with_script_text @current_row_with_script_text
  @isChecked_setText @isEnabled_setText @script_text_setText @current_row_setText
  @isChecked_setCursorPosition @isEnabled_setCursorPosition
  @script_text_setCursorPosition @current_row_setCursorPosition
  @isChecked_setEnabled @isEnabled_setEnabled @text_setEnabled
  @script_text_setEnabled @current_row_setEnabled
  @isChecked_setChecked @text_setChecked @script_text_setChecked
  @current_row_setChecked @text_setText @text_setCursorPosition : frame.

(** ** Loading and saving *)

Section Persistence.
Context `{Host}.

(** What the page holds when [load] returns. *)
Lemma load_isChecked config p c :
  isChecked c (load config p) =
    match c with
    | windows_compatibility =>
        if IS_WIN then true else setting_bool config "windows_compatibility"
    | rename_files => setting_bool config "rename_files"
    | move_files => setting_bool config "move_files"
    | ascii_filenames => setting_bool config "ascii_filenames"
    | move_additional_files => setting_bool config "move_additional_files"
    | delete_empty_dirs => setting_bool config "delete_empty_dirs"
    end.
Proof.
  unfold load. destruct IS_WIN; autorewrite with frame; destruct c; done.
Qed.

Lemma load_text config p e :
  text e (load config p) =
    QLineEdit.fit
      match e with
      | move_files_to => setting_text config "move_files_to"
      | move_additional_files_pattern =>
          setting_text config "move_additional_files_pattern"
      end.
Proof. unfold load. destruct IS_WIN; autorewrite with frame; destruct e; done. Qed.

Lemma load_script_text config p :
  script_text (load config p) = setting_text config "file_naming_format".
Proof. unfold load. destruct IS_WIN; by autorewrite with frame. Qed.

(** On Windows nothing that follows in [load] enables the check box
    again. *)
Lemma isEnabled_setChecked_windows c b p :
  IS_WIN = true →
  isEnabled windows_compatibility (setChecked c b p)
    = isEnabled windows_compatibility p.
Proof.
  intros Hwin.
  unfold setChecked, QCheckBox.setChecked, on_toggled, enabledSlot,
    toggle_file_renaming, toggle_file_moving, toggle_file_naming_format.
  rewrite Hwin. simpl.
  case_bool_decide; simpl;
    destruct c; try destruct (enabledSlot_arg b); done.
Qed.

Lemma load_isEnabled_windows config p :
  IS_WIN = true → isEnabled windows_compatibility (load config p) = false.
Proof.
  intros Hwin. unfold load. rewrite Hwin.
  repeat first [ rewrite isEnabled_setChecked_windows by done
               | progress autorewrite with frame ].
  done.
Qed.

(** C6. On Windows [load] ticks the Windows compatibility check box and
    disables it, whatever is stored; elsewhere the check box shows the
    stored value. *)
Theorem load_windows_compatibility (config : gmap string value) (p : Page) :
  if IS_WIN then
    isChecked windows_compatibility (load config p) = true
    ∧ isEnabled windows_compatibility (load config p) = false
  else
    isChecked windows_compatibility (load config p)
      = setting_bool config "windows_compatibility".
Proof.
  pose proof (load_isChecked config p windows_compatibility) as Hchecked.
  pose proof (load_isEnabled_windows config p) as Henabled.
  destruct IS_WIN; simpl in *; auto.
Qed.

(** The names [save] assigns to. *)
Lemma save_lookup config window p :
  let config' := (save config window p).1 in
  config' !! "windows_compatibility"%string
    = Some (BoolV (isChecked windows_compatibility p))
  ∧ config' !! "ascii_filenames"%string = Some (BoolV (isChecked ascii_filenames p))
  ∧ config' !! "rename_files"%string = Some (BoolV (isChecked rename_files p))
  ∧ config' !! "file_naming_format"%string = Some (TextV (strip (script_text p)))
  ∧ config' !! "move_files"%string = Some (BoolV (isChecked move_files p))
  ∧ config' !! "move_files_to"%string
    = Some (TextV (os_path_normpath (text move_files_to p)))
  ∧ config' !! "move_additional_files"%string
    = Some (BoolV (isChecked move_additional_files p))
  ∧ config' !! "move_additional_files_pattern"%string
    = Some (TextV (text move_additional_files_pattern p))
  ∧ config' !! "delete_empty_dirs"%string = Some (BoolV (isChecked delete_empty_dirs p))
  ∧ config' !! "file_naming_scripts"%string
    = Some (ListV (naming_scripts (script_editor_page p)))
  ∧ config' !! "selected_file_naming_script_id"%string
    = Some (TextV (selected_script_id (script_editor_page p))).
Proof. unfold save. simpl. repeat split; by simplify_map_eq. Qed.

(** A Boolean option reads back as it was stored. *)
Lemma setting_bool_stored (config : gmap string value) (name : string) (b d : bool) :
  (list_to_map options : gmap string value) !! name = Some (BoolV d) →
  config !! name = Some (BoolV b) →
  setting_bool config name = b.
Proof. intros Hd Hv. unfold setting_bool, getitem. by rewrite Hd, Hv. Qed.

Lemma save_window config window p :
  enable_renaming_action (save config window p).2 = isChecked rename_files p
  ∧ enable_moving_action (save config window p).2 = isChecked move_files p.
Proof.
  unfold save. simpl. split.
  - apply (setting_bool_stored _ _ _ false); [done | by simplify_map_eq].
  - apply (setting_bool_stored _ _ _ false); [done | by simplify_map_eq].
Qed.

(** C7. [save] assigns each of the eleven options from the page and the
    editor, and sets the two actions of the main window to the values of
    [rename_files] and [move_files] it has just stored. *)
Theorem save_writes_every_option (config : gmap string value)
    (window : MainWindow) (p : Page) :
  let config' := (save config window p).1 in
  let window' := (save config window p).2 in
  (config' !! "windows_compatibility"%string
     = Some (BoolV (isChecked windows_compatibility p))
   ∧ config' !! "ascii_filenames"%string = Some (BoolV (isChecked ascii_filenames p))
   ∧ config' !! "rename_files"%string = Some (BoolV (isChecked rename_files p))
   ∧ config' !! "file_naming_format"%string = Some (TextV (strip (script_text p)))
   ∧ config' !! "move_files"%string = Some (BoolV (isChecked move_files p))
   ∧ config' !! "move_files_to"%string
     = Some (TextV (os_path_normpath (text move_files_to p)))
   ∧ config' !! "move_additional_files"%string
     = Some (BoolV (isChecked move_additional_files p))
   ∧ config' !! "move_additional_files_pattern"%string
     = Some (TextV (text move_additional_files_pattern p))
   ∧ config' !! "delete_empty_dirs"%string
     = Some (BoolV (isChecked delete_empty_dirs p))
   ∧ config' !! "file_naming_scripts"%string
     = Some (ListV (naming_scripts (script_editor_page p)))
   ∧ config' !! "selected_file_naming_script_id"%string
     = Some (TextV (selected_script_id (script_editor_page p))))
  ∧ enable_renaming_action window' = setting_bool config' "rename_files"
  ∧ enable_moving_action window' = setting_bool config' "move_files"
  ∧ setting_bool config' "rename_files" = isChecked rename_files p
  ∧ setting_bool config' "move_files" = isChecked move_files p.
Proof.
  intros config' window'.
  pose proof (save_lookup config window p) as Hall.
  pose proof (save_window config window p) as [Hren Hmov].
  split; [exact Hall|].
  destruct Hall as (_ & _ & Hr & _ & Hm & _).
  assert (setting_bool config' "rename_files" = isChecked rename_files p) as Hr'
    by by apply (setting_bool_stored _ _ _ false).
  assert (setting_bool config' "move_files" = isChecked move_files p) as Hm'
    by by apply (setting_bool_stored _ _ _ false).
  subst window'. by rewrite Hren, Hmov, Hr', Hm'.
Qed.

(** C5, as the code has it. [load] followed by [save] stores what was read
    for the five check boxes that are saved as they are; it stores [True]
    for [windows_compatibility] on Windows and the value read elsewhere,
    and the naming format stripped of surrounding whitespace.  The file
    pattern and the destination pass through a line edit, which holds the
    first 32767 UTF-16 code units of a text: the pattern is stored as the
    line edit holds it, the destination as the normalized path of what the
    line edit holds.  A line edit holds a text unchanged exactly when the
    text has at most 32767 code units and is well formed. *)
Theorem load_save_round_trip (config : gmap string value)
    (window : MainWindow) (p : Page) :
  let config' := (save config window (load config p)).1 in
  (config' !! "ascii_filenames"%string
     = Some (BoolV (setting_bool config "ascii_filenames"))
   ∧ config' !! "rename_files"%string
     = Some (BoolV (setting_bool config "rename_files"))
   ∧ config' !! "move_files"%string = Some (BoolV (setting_bool config "move_files"))
   ∧ config' !! "move_additional_files"%string
     = Some (BoolV (setting_bool config "move_additional_files"))
   ∧ config' !! "delete_empty_dirs"%string
     = Some (BoolV (setting_bool config "delete_empty_dirs"))
   ∧ config' !! "windows_compatibility"%string
     = Some (BoolV (if IS_WIN then true
                    else setting_bool config "windows_compatibility"))
   ∧ config' !! "file_naming_format"%string
     = Some (TextV (strip (setting_text config "file_naming_format")))
   ∧ config' !! "move_additional_files_pattern"%string
     = Some (TextV (QLineEdit.fit
                      (setting_text config "move_additional_files_pattern")))
   ∧ config' !! "move_files_to"%string
     = Some (TextV (os_path_normpath
                      (QLineEdit.fit (setting_text config "move_files_to")))))
  ∧ ∀ s : str,
      QString.fromStr (QLineEdit.fit s) = QString.left 32767 (QString.fromStr s)
      ∧ (QLineEdit.fit s = s
         ↔ (N.of_nat (length (QString.fromStr s)) ≤ 32767)%N
           ∧ QString.well_formed s = true).
Proof.
  intros config'. split.
  - pose proof (save_lookup config window (load config p)) as Hall.
    rewrite !load_isChecked, !load_text, load_script_text in Hall.
    destruct Hall as (? & ? & ? & ? & ? & ? & ? & ? & ? & _).
    by repeat apply conj.
  - intros s. split; [apply fromStr_fit | apply fit_fixed].
Qed.

(** C9. The destination reaches the preview and the configuration only
    through [os.path.normpath]: the override of the preview and [save]
    both hold the normalized text of the destination field.  Where
    [os.path.normpath] is the POSIX one, what is stored is a normalized
    path (no empty component, so no doubled or trailing separator), and
    an empty field is stored as ".". *)
Theorem destination_is_normalized (config : gmap string value)
    (window : MainWindow) (p : Page) :
  let destination := os_path_normpath (text move_files_to p) in
  (save config window p).1 !! "move_files_to"%string = Some (TextV destination)
  ∧ override p !! "move_files_to"%string = Some (TextV destination)
  ∧ ((∀ path, os_path_normpath path = posixpath.normpath path) →
     posixpath.normalized destination
     ∧ (text move_files_to p = [] → destination = u ".")).
Proof.
  intros destination. split; [|split].
  - apply save_lookup.
  - unfold override. by simplify_map_eq.
  - intros Hposix. subst destination. rewrite Hposix. split.
    + apply normpath_normalized.
    + by intros ->.
Qed.
End Persistence.

(** C5 as stated does not hold.  A stored naming format with
    surrounding whitespace and a stored destination with a doubled
    separator are both read by [load] and written back changed by [save]. *)
Lemma load_save_changes_stored_values :
  getitem (save Sample.stored (mkWindow false false) (load Sample.stored init)).1
      "file_naming_format"
    ≠ getitem Sample.stored "file_naming_format"
  ∧ getitem (save Sample.stored (mkWindow false false) (load Sample.stored init)).1
      "move_files_to"
    ≠ getitem Sample.stored "move_files_to".
Proof. split; vm_compute; discriminate. Qed.

(** A stored file pattern of 32768 characters is written back by [load]
    and [save] with 32767 characters: the line edit has cut it. *)
Lemma load_save_round_trip_witness :
  let stored : gmap string value :=
    <["move_additional_files_pattern"%string
        := TextV (replicate (N.to_nat 32768) 42%N)]> ∅ in
  ∃ written : str,
    (save stored (mkWindow false false) (load stored init)).1
      !! "move_additional_files_pattern"%string = Some (TextV written)
    ∧ N.of_nat (length written) = 32767%N
    ∧ N.of_nat (length (setting_text stored "move_additional_files_pattern"))
      = 32768%N.
Proof.
  intros stored.
  destruct (load_save_round_trip (H := Sample.host) stored (mkWindow false false) init)
    as [(_ & _ & _ & _ & _ & _ & _ & Hpattern & _) _].
  eexists. split; [exact Hpattern|].
  split; vm_compute; reflexivity.
Defined.

(** An empty destination field is stored as ".", and "/music//rock/" as
    "/music/rock". *)
Lemma destination_is_normalized_witness :
  (save ∅ (mkWindow false false) (Sample.page false true (u "%title%") (u ""))).1
     !! "move_files_to"%string = Some (TextV (u "."))
  ∧ (save ∅ (mkWindow false false)
       (Sample.page false true (u "%title%") (u "/music//rock/"))).1
     !! "move_files_to"%string = Some (TextV (u "/music/rock"))
  ∧ posixpath.normalized (u "/music/rock").
Proof.
  split; [|split].
  - pose proof (destination_is_normalized ∅ (mkWindow false false)
                  (Sample.page false true (u "%title%") (u ""))) as (Hsave & _ & Hposix).
    destruct (Hposix (λ _, eq_refl)) as [_ Hempty].
    rewrite Hsave, (Hempty eq_refl). reflexivity.
  - rewrite (proj1 (destination_is_normalized ∅ (mkWindow false false)
                      (Sample.page false true (u "%title%") (u "/music//rock/")))).
    reflexivity.
  - pose proof (destination_is_normalized ∅ (mkWindow false false)
                  (Sample.page false true (u "%title%") (u "/music//rock/")))
      as (_ & _ & Hposix).
    destruct (Hposix (λ _, eq_refl)) as [Hnormalized _].
    exact Hnormalized.
Defined.

(** ** Signals and their echoes *)

Section Signals.
Context `{Host}.

(** While its signals are blocked, filling the selector emits nothing and
    leaves the signals blocked. *)
Lemma add_preset_items_blocked (preset : QComboBox.t) (indices : list nat)
    (w : QComboBox.t) (emitted : list Z) :
  QComboBox.signalsBlocked w = true →
  (foldl (add_preset_item preset) (w, emitted) indices).2 = emitted
  ∧ QComboBox.signalsBlocked (foldl (add_preset_item preset) (w, emitted) indices).1
    = true.
Proof.
  revert w emitted.
  induction indices as [|i indices IH]; intros w emitted Hblocked; simpl; [done|].
  unfold add_preset_item at 2 4, QComboBox.addItem, QComboBox.emit. simpl.
  rewrite Hblocked.
  destruct (QComboBox.items w); simpl; rewrite app_nil_r; by apply IH.
Qed.

(** The loop copies the items of the editor's selector, in order. *)
Lemma add_preset_items_copy (preset : QComboBox.t) (n : nat)
    (w : QComboBox.t) (emitted : list Z) :
  (n ≤ QComboBox.count preset)%nat →
  QComboBox.items (foldl (add_preset_item preset) (w, emitted) (seq 0 n)).1
    = QComboBox.items w ++ take n (QComboBox.items preset).
Proof.
  induction n as [|n IH]; intros Hn.
  - by rewrite take_0, app_nil_r.
  - rewrite seq_S, foldl_app. simpl.
    destruct (lookup_lt_is_Some_2 (QComboBox.items preset) n) as [[title data] Hitem];
      [unfold QComboBox.count in Hn; lia|].
    rewrite (take_S_r _ _ _ Hitem), app_assoc, <- IH by lia.
    unfold add_preset_item, QComboBox.addItem, QComboBox.itemText, QComboBox.itemData.
    rewrite Hitem. simpl.
    by destruct (QComboBox.items _).
Qed.

Lemma update_selector_from_editor_quiet (p : Page) :
  (update_selector_from_editor p).2 = [].
Proof.
  unfold update_selector_from_editor.
  set (preset := preset_naming_scripts (script_editor_page p)).
  unfold QComboBox.clear. simpl.
  destruct (add_preset_items_blocked preset (seq 0 (QComboBox.count preset))
              (QComboBox.mk [] (-1) true) [] eq_refl) as [Hquiet Hstill].
  destruct (foldl _ _ _) as [w e2]. simpl in *. subst e2.
  unfold QComboBox.emit. by rewrite Hstill.
Qed.

(** After the update the selector shows the items and the selection of
    the editor's selector, and its signals are no longer blocked. *)
Lemma update_selector_from_editor_mirrors (p : Page) :
  let preset := preset_naming_scripts (script_editor_page p) in
  let w := naming_script_selector (ui (update_selector_from_editor p).1) in
  QComboBox.items w = QComboBox.items preset
  ∧ QComboBox.currentIndex w
    = (if (0 <=? QComboBox.currentIndex preset)
          && (QComboBox.currentIndex preset <? Z.of_nat (QComboBox.count preset))
       then QComboBox.currentIndex preset else -1)
  ∧ QComboBox.signalsBlocked w = false.
Proof.
  intros preset w. subst w. unfold update_selector_from_editor. fold preset.
  unfold QComboBox.clear. simpl.
  pose proof (add_preset_items_copy preset (QComboBox.count preset)
                (QComboBox.mk [] (-1) true) [] (le_n _)) as Hcopy.
  destruct (foldl _ _ _) as [w e2]. simpl in *.
  unfold QComboBox.count in *. rewrite firstn_all in Hcopy.
  rewrite Hcopy. done.
Qed.

Lemma match_lists_quiet (source target : listbox) (p : Page) :
  (match_lists source target p).2 = [].
Proof. done. Qed.

(** The target list ends on the row of the source list, or without a
    selection when it has no such row, and its signals are not blocked. *)
Lemma match_lists_row (source target : listbox) (p : Page) :
  let row := QListWidget.currentRow (list_box (ui p) source) in
  let w := list_box (ui (match_lists source target p).1) target in
  QListWidget.currentRow w
    = (if (0 <=? row)
          && (row <? Z.of_nat (length (QListWidget.rows (list_box (ui p) target))))
       then row else -1)
  ∧ QListWidget.signalsBlocked w = false.
Proof.
  intros row w. subst w. unfold match_lists. simpl.
  by rewrite fn_insert_lookup, decide_True by done.
Qed.

(** No slot of the page makes a widget of the page emit a signal. *)
Lemma slot_quiet (s : signal) (p : Page) : (slot s p).2 = [].
Proof.
  destruct s as [c|c state|e| |chosen| |index|l| | |]; simpl;
    try by (try destruct c; try destruct e; try destruct l).
  pose proof (update_selector_from_editor_quiet p) as Hquiet.
  destruct (update_selector_from_editor p) as [p' emitted].
  simpl in *. by subst.
Qed.

(** So every waiting signal is delivered once and nothing is added. *)
Lemma deliver_trace (fuel : nat) (queue : list signal) (p : Page) :
  (deliver fuel queue p).2 = take fuel queue.
Proof.
  revert queue p.
  induction fuel as [|fuel IH]; intros [|s queue] p; simpl; try done.
  pose proof (slot_quiet s p) as Hquiet.
  destruct (slot s p) as [p' emitted]. simpl in Hquiet. subst emitted. simpl.
  specialize (IH queue p').
  destruct (deliver fuel queue p') as [p'' trace]. simpl in *. by subst.
Qed.
End Signals.

Section Echo.
Context `{Host}.

(** C8. Synchronizing a selection never fires the handler of the peer.
    [update_selector_from_editor] fills the script selector while its
    signals are blocked, so the selector emits no [currentIndexChanged]
    and [update_selector_in_editor] is not called back; the selector ends
    with the items and the selection of the editor.  Pairing the rows of
    the example lists emits no [itemSelectionChanged] from the list that
    is set, which ends on the row of the other list.  Delivering one such
    signal therefore runs one slot and no more, whatever fuel is left for
    echoes, and a user action has only the signals it emitted itself
    delivered. *)
Theorem selection_sync_no_echo (p : Page) (fuel : nat) :
  let preset := preset_naming_scripts (script_editor_page p) in
  let selector := naming_script_selector (ui (update_selector_from_editor p).1) in
  let row_of (source target : listbox) :=
    let row := QListWidget.currentRow (list_box (ui p) source) in
    if (0 <=? row)
       && (row <? Z.of_nat (length (QListWidget.rows (list_box (ui p) target))))
    then row else -1 in
  ((update_selector_from_editor p).2 = []
   ∧ QComboBox.items selector = QComboBox.items preset
   ∧ QComboBox.currentIndex selector
     = (if (0 <=? QComboBox.currentIndex preset)
           && (QComboBox.currentIndex preset <? Z.of_nat (QComboBox.count preset))
        then QComboBox.currentIndex preset else -1)
   ∧ (deliver (S fuel) [signal_selection_changed] p).2 = [signal_selection_changed])
  ∧ ((match_after_to_before p).2 = []
     ∧ (match_before_to_after p).2 = []
     ∧ QListWidget.currentRow
         (list_box (ui (match_after_to_before p).1) example_filename_after)
       = row_of example_filename_before example_filename_after
     ∧ QListWidget.currentRow
         (list_box (ui (match_before_to_after p).1) example_filename_before)
       = row_of example_filename_after example_filename_before
     ∧ ∀ l, (deliver (S fuel) [itemSelectionChanged l] p).2 = [itemSelectionChanged l])
  ∧ ∀ e, (deliver (2 * length (act e p).2) (act e p).2 (act e p).1).2 = (act e p).2.
Proof.
  intros preset selector row_of.
  destruct (update_selector_from_editor_mirrors p) as (Hitems & Hindex & _).
  destruct (match_lists_row example_filename_before example_filename_after p)
    as [Hafter _].
  destruct (match_lists_row example_filename_after example_filename_before p)
    as [Hbefore _].
  assert (∀ s, (deliver (S fuel) [s] p).2 = [s]) as Hone.
  { intros s. rewrite deliver_trace. simpl. by rewrite take_nil. }
  split; [|split].
  - split; [apply update_selector_from_editor_quiet|].
    split; [exact Hitems|]. split; [exact Hindex|]. apply Hone.
  - split; [apply match_lists_quiet|]. split; [apply match_lists_quiet|].
    split; [exact Hafter|]. split; [exact Hbefore|]. intros l. apply Hone.
  - intros e. rewrite deliver_trace. apply take_ge. lia.
Qed.
End Echo.

(** ** The current row *)

Section CurrentRow.
Context `{Host}.

Lemma current_row_on_toggled c state p :
  current_row (on_toggled c state p) = current_row p.
Proof. by destruct (on_toggled_same_values c state p) as (_ & _ & _ & ? & _). Qed.

Lemma current_row_load config p : current_row (load config p) = current_row p.
Proof. unfold load. destruct IS_WIN; by autorewrite with frame. Qed.

Lemma current_row_test p : current_row (test p).1 = current_row p.
Proof.
  unfold test. destruct (check_format _) as [[]|[title info|title info]]; done.
Qed.

Lemma current_row_check_formats p : current_row (check_formats p).1 = current_row p.
Proof.
  unfold check_formats. pose proof (current_row_test p) as Htest.
  destruct (test p) as [p' [e|]]; done.
Qed.

Lemma current_row_update_selector p :
  current_row (update_selector_from_editor p).1 = current_row p.
Proof.
  unfold update_selector_from_editor, QComboBox.clear. simpl.
  by destruct (foldl _ _ _).
Qed.

(** No slot gives [current_row] another value than it had or -1. *)
Lemma current_row_slot (s : signal) (p : Page) :
  current_row p = -1 → current_row (slot s p).1 = -1.
Proof.
  intros Hrow.
  destruct s as [c|c state|e| |chosen| |index|l| | |]; simpl;
    try done.
  - by destruct c.
  - by rewrite current_row_on_toggled.
  - by destruct e.
  - unfold move_files_to_browse. by destruct (truthy chosen).
  - by destruct l.
  - pose proof (current_row_update_selector p) as Hsel.
    destruct (update_selector_from_editor p) as [p' emitted].
    simpl in *. congruence.
Qed.

Lemma current_row_deliver (fuel : nat) (queue : list signal) (p : Page) :
  current_row p = -1 → current_row (deliver fuel queue p).1 = -1.
Proof.
  revert queue p.
  induction fuel as [|fuel IH]; intros [|s queue] p Hrow; simpl; try done.
  pose proof (current_row_slot s p Hrow) as Hslot.
  destruct (slot s p) as [p' emitted]. simpl in Hslot.
  specialize (IH (emitted ++ queue) p' Hslot).
  by destruct (deliver fuel (emitted ++ queue) p') as [p'' trace].
Qed.

Lemma current_row_act (e : event) (p : Page) :
  current_row (act e p).1 = current_row p.
Proof.
  destruct e as [s|l row|index|c|e s|config| |]; cbn [act fst].
  - reflexivity.
  - unfold QListWidget.setCurrentRow. reflexivity.
  - unfold QComboBox.setCurrentIndex. reflexivity.
  - apply current_row_setChecked.
  - reflexivity.
  - apply current_row_load.
  - apply current_row_test.
  - apply current_row_check_formats.
Qed.

Lemma current_row_step (p : Page) (e : event) :
  current_row p = -1 → current_row (step p e) = -1.
Proof.
  intros Hrow. unfold step.
  pose proof (current_row_act e p) as Hact.
  destruct (act e p) as [p' queue]. simpl in Hact.
  apply current_row_deliver. congruence.
Qed.

Lemma current_row_run (events : list event) (p : Page) :
  current_row p = -1 → current_row (run events p) = -1.
Proof.
  revert p. induction events as [|e events IH]; intros p Hrow; simpl; [done|].
  apply IH. by apply current_row_step.
Qed.

(** C10. [current_row] is -1 when the page has been constructed;
    [display_examples] sets it to -1 first and renders the lists in that
    state, whatever it was before; and whatever happens to the page, it is
    -1 afterwards, in particular after every recomputation of the
    preview. *)
Theorem current_row_cleared (p : Page) (events : list event) :
  current_row init = -1
  ∧ display_examples p = render_examples (reset_current_row p)
  ∧ current_row (reset_current_row p) = -1
  ∧ current_row (display_examples p) = -1
  ∧ current_row (update_from_editor p) = -1
  ∧ current_row (run events init) = -1
  ∧ current_row (update_examples_from_local (run events init)) = -1.
Proof.
  repeat split; try done.
  - by apply current_row_run.
  - change (current_row (update_examples_from_local ?q)) with (current_row q).
    by apply current_row_run.
Qed.
End CurrentRow.

(** * Further properties *)

(** ** Stripping and normalizing twice *)

Section Idempotence.
Import posixpath.

Lemma lstrip_clean_head (s : str) : clean_head (lstrip s).
Proof.
  induction s as [|c s IH]; simpl; [done|].
  destruct (isspace c) eqn:Hc; [done | by simpl].
Qed.

Lemma lstrip_of_clean_head (s : str) : clean_head s → lstrip s = s.
Proof. destruct s as [|c s]; simpl; [done|]. by intros ->. Qed.

Lemma lstrip_keeps_last (l : str) (c : N) :
  isspace c = false → ∃ l', lstrip (l ++ [c]) = l' ++ [c].
Proof.
  intros Hc. induction l as [|a l IH]; simpl.
  - exists []. by rewrite Hc.
  - destruct (isspace a); [done|]. by exists (a :: l).
Qed.

Lemma rstrip_clean_head (s : str) : clean_head s → clean_head (rstrip s).
Proof.
  destruct s as [|c s]; [done|]. simpl. intros Hc. unfold rstrip. simpl.
  destruct (lstrip_keeps_last (rev s) c Hc) as [l' ->].
  by rewrite rev_app_distr.
Qed.

Lemma strip_idempotent (s : str) : strip (strip s) = strip s.
Proof.
  unfold strip.
  rewrite (lstrip_of_clean_head (rstrip (lstrip s)))
    by apply rstrip_clean_head, lstrip_clean_head.
  unfold rstrip. rewrite rev_involutive.
  by rewrite (lstrip_of_clean_head (lstrip _)) by apply lstrip_clean_head.
Qed.

Lemma split_single (c : str) : sep ∉ c → split c = [c].
Proof.
  induction c as [|a c IH]; simpl; [done|].
  intros Hsep. apply not_elem_of_cons in Hsep as [Ha Hc].
  destruct (N.eqb_spec a sep) as [->|_]; [done|]. by rewrite IH.
Qed.

Lemma split_app_sep (c s : str) : sep ∉ c → split (c ++ sep :: s) = c :: split s.
Proof.
  induction c as [|a c IH]; simpl; [done|].
  intros Hsep. apply not_elem_of_cons in Hsep as [Ha Hc].
  destruct (N.eqb_spec a sep) as [->|_]; [done|]. by rewrite IH.
Qed.

Lemma split_join (comps : list str) :
  Forall (λ c, sep ∉ c) comps → comps ≠ [] → split (join comps) = comps.
Proof.
  induction 1 as [|c [|c' rest] Hc Hrest IH]; intros Hne; [done|..].
  - simpl. by apply split_single.
  - change (join (c :: c' :: rest)) with (c ++ sep :: join (c' :: rest)).
    rewrite split_app_sep by done. by rewrite IH.
Qed.

Lemma split_leading_seps (k : nat) (body : str) :
  split (repeat sep k ++ body) = repeat [] k ++ split body.
Proof. induction k as [|k IH]; simpl; [done|]. by rewrite IH. Qed.

Lemma normpath_step_skips (k : nat) (acc : list str) (comp : str) :
  comp = [] ∨ comp = dot → normpath_step k acc comp = acc.
Proof. by intros [-> | ->]. Qed.

Lemma normpath_step_plain (k : nat) (acc : list str) (comp : str) :
  plain comp → normpath_step k acc comp = acc ++ [comp].
Proof.
  intros [(Hempty & Hdot & _) Hdotdot]. unfold normpath_step, str_eqb.
  by rewrite (bool_decide_eq_false_2 (comp = [])),
    (bool_decide_eq_false_2 (comp = dot)),
    (bool_decide_eq_false_2 (comp = dotdot)).
Qed.

Lemma last_repeat_dotdot (n : nat) : last (repeat dotdot (S n)) = Some dotdot.
Proof. induction n as [|n IH]; [done|]. by rewrite <- IH. Qed.

Lemma normpath_step_dotdot_front (n : nat) :
  normpath_step 0 (repeat dotdot n) dotdot = repeat dotdot (S n).
Proof.
  change (repeat dotdot (S n)) with (dotdot :: repeat dotdot n).
  rewrite repeat_cons. unfold normpath_step, str_eqb.
  destruct n as [|n]; [done|].
  rewrite last_repeat_dotdot.
  by rewrite (bool_decide_eq_true_2 (Some dotdot = Some dotdot)).
Qed.

Lemma fold_plain (k : nat) (rest acc : list str) :
  Forall plain rest → fold_left (normpath_step k) rest acc = acc ++ rest.
Proof.
  intros Hrest. revert acc.
  induction Hrest as [|c rest Hc _ IH]; intros acc; simpl.
  - by rewrite app_nil_r.
  - by rewrite normpath_step_plain, IH, <- app_assoc.
Qed.

Lemma fold_dotdots (n m : nat) :
  fold_left (normpath_step 0) (repeat dotdot n) (repeat dotdot m)
    = repeat dotdot (m + n).
Proof.
  revert m. induction n as [|n IH]; intros m; simpl.
  - by rewrite Nat.add_0_r.
  - rewrite normpath_step_dotdot_front, IH. f_equal. lia.
Qed.

(** Settled components go through the loop of [normpath] unchanged. *)
Lemma fold_settled (k : nat) (comps : list str) :
  settled k comps → fold_left (normpath_step k) comps [] = comps.
Proof.
  intros (n & rest & -> & Hrest & Hk).
  rewrite fold_left_app. destruct k as [|k].
  - pose proof (fold_dotdots n 0) as Hfront. simpl in Hfront.
    rewrite Hfront. by rewrite fold_plain.
  - rewrite Hk by done. simpl. by rewrite fold_plain.
Qed.

Lemma fold_skips_empty (k n : nat) (comps acc : list str) :
  fold_left (normpath_step k) (repeat [] n ++ comps) acc
    = fold_left (normpath_step k) comps acc.
Proof. induction n as [|n IH]; [done|]. simpl. exact IH. Qed.

Lemma normpath_step_dotdot (k : nat) (acc : list str) :
  normpath_step k acc dotdot =
    if (Nat.eqb k 0 && bool_decide (acc = []))
       || (negb (bool_decide (acc = [])) && bool_decide (last acc = Some dotdot))
    then acc ++ [dotdot]
    else if negb (bool_decide (acc = [])) then removelast acc else acc.
Proof. done. Qed.

Lemma normpath_step_settled (k : nat) (acc : list str) (comp : str) :
  sep ∉ comp → settled k acc → settled k (normpath_step k acc comp).
Proof.
  intros Hsep Hacc.
  destruct (decide (comp = [])) as [->|Hempty]; [done|].
  destruct (decide (comp = dot)) as [->|Hdot]; [done|].
  destruct (decide (comp = dotdot)) as [->|Hdotdot].
  - destruct Hacc as (n & rest & -> & Hrest & Hk).
    rewrite normpath_step_dotdot.
    destruct rest as [|c rest _] using rev_ind.
    + rewrite app_nil_r. destruct n as [|n].
      * simpl. destruct k as [|k]; simpl.
        -- exists 1%nat, []. by repeat split.
        -- exists 0%nat, []. by repeat split.
      * assert (k = 0%nat) as -> by (destruct k; [done | by specialize (Hk ltac:(done))]).
        rewrite last_repeat_dotdot.
        rewrite (bool_decide_eq_true_2 (Some dotdot = Some dotdot)) by done.
        rewrite (bool_decide_eq_false_2 (repeat dotdot (S n) = [])) by done.
        simpl. exists (S (S n)), [].
        split; [|by split].
        rewrite app_nil_r.
        change (dotdot :: repeat dotdot n ++ [dotdot])
          with (repeat dotdot (S n) ++ [dotdot]).
        by rewrite <- repeat_cons.
    + rewrite Forall_app, Forall_singleton in Hrest.
      destruct Hrest as [Hrest Hc].
      rewrite app_assoc, last_snoc.
      rewrite (bool_decide_eq_false_2 (_ ++ [c] = []))
        by (intros Heq; symmetry in Heq; by apply app_cons_not_nil in Heq).
      rewrite (bool_decide_eq_false_2 (Some c = Some dotdot))
        by (intros Heq%(inj Some); by destruct Hc as [_ Hne]).
      rewrite andb_false_r. simpl.
      rewrite removelast_last. by exists n, rest.
  - destruct Hacc as (n & rest & -> & Hrest & Hk).
    rewrite normpath_step_plain by done.
    exists n, (rest ++ [comp]). rewrite app_assoc.
    split; [done|]. split; [|done].
    apply Forall_app. split; [done|]. by repeat constructor.
Qed.

Lemma normpath_fold_settled (k : nat) (comps acc : list str) :
  Forall (λ c, sep ∉ c) comps → settled k acc →
  settled k (fold_left (normpath_step k) comps acc).
Proof.
  intros Hcomps. revert acc.
  induction Hcomps as [|c comps Hc _ IH]; intros acc Hacc; simpl; [done|].
  apply IH. by apply normpath_step_settled.
Qed.

Lemma normpath_unfold (path : str) :
  normpath path =
    if str_eqb path [] then dot
    else
      let k := initial_slashes path in
      let r := repeat sep k ++ join (fold_left (normpath_step k) (split path) []) in
      if truthy r then r else dot.
Proof. done. Qed.

Lemma initial_slashes_le (path : str) : (initial_slashes path ≤ 2)%nat.
Proof. unfold initial_slashes. repeat case_match; lia. Qed.

Lemma settled_components (k : nat) (comps : list str) :
  settled k comps → Forall component comps.
Proof.
  intros (n & rest & -> & Hrest & _). apply Forall_app. split.
  - induction n as [|n IH]; simpl; constructor; [|done].
    repeat split; [done..|]. by intros [|[|[]%elem_of_nil]%elem_of_cons]%elem_of_cons.
  - eapply Forall_impl; [done|]. by intros c [Hc _].
Qed.

(** A joined path does not start with a separator. *)
Lemma join_head (comps : list str) :
  Forall component comps →
  match join comps with [] => True | c :: _ => c ≠ sep end.
Proof.
  intros [|[|a c] rest (Hempty & _ & Hsep) _]; [done..|].
  apply not_elem_of_cons in Hsep as [Ha _].
  destruct rest; simpl; congruence.
Qed.

Lemma initial_slashes_kept (k : nat) (body : str) :
  (k ≤ 2)%nat → match body with [] => True | c :: _ => c ≠ sep end →
  initial_slashes (repeat sep k ++ body) = k.
Proof.
  intros Hk Hbody. unfold initial_slashes.
  assert (∀ c, c ≠ sep → (sep =? c)%N = false) as Hneq
    by (intros c Hc; apply N.eqb_neq; congruence).
  destruct k as [|[|[|k]]]; [..|lia]; destruct body as [|c body];
    cbn [startswith repeat app]; rewrite ?N.eqb_refl, ?Hneq by done; done.
Qed.

(** A path that [normpath] has produced is left as it is by [normpath]. *)
Lemma normpath_settled (k : nat) (comps : list str) :
  (k ≤ 2)%nat → settled k comps → repeat sep k ++ join comps ≠ [] →
  normpath (repeat sep k ++ join comps) = repeat sep k ++ join comps.
Proof.
  intros Hk Hcomps Hne.
  pose proof (settled_components k comps Hcomps) as Hall.
  rewrite normpath_unfold. unfold str_eqb.
  rewrite bool_decide_eq_false_2 by done. cbv zeta.
  rewrite (initial_slashes_kept k (join comps) Hk (join_head comps Hall)).
  rewrite split_leading_seps, fold_skips_empty.
  assert (fold_left (normpath_step k) (split (join comps)) [] = comps) as ->.
  { destruct (decide (comps = [])) as [->|Hcomps_ne]; [done|].
    rewrite split_join; [by apply fold_settled | | done].
    eapply Forall_impl; [done|]. by intros c (_ & _ & ?). }
  by destruct (repeat sep k ++ join comps).
Qed.

Lemma normpath_idempotent (path : str) :
  normpath (normpath path) = normpath path.
Proof.
  rewrite (normpath_unfold path). unfold str_eqb.
  case_bool_decide as Hpath; [done|]. cbv zeta.
  set (k := initial_slashes path).
  set (comps := fold_left (normpath_step k) (split path) []).
  destruct (truthy (repeat sep k ++ join comps)) eqn:Htruthy; [|done].
  apply normpath_settled.
  - apply initial_slashes_le.
  - apply normpath_fold_settled; [apply split_no_sep|].
    exists 0%nat, []. by repeat split.
  - by destruct (repeat sep k ++ join comps).
Qed.

End Idempotence.

(** ** Normalizing a text that a line edit holds *)

Section NormpathFits.
Import posixpath QString.

Lemma ulen_app (s t : str) : ulen (s ++ t) = (ulen s + ulen t)%nat.
Proof. unfold ulen. by rewrite fromStr_app, length_app. Qed.

Lemma ulen_seps (k : nat) : ulen (repeat sep k) = k.
Proof. induction k as [|k IH]; [done|]. unfold ulen in *. simpl. by rewrite IH. Qed.

Lemma weight_app (l m : list str) : weight (l ++ m) = (weight l + weight m)%nat.
Proof. apply sum_list_with_app. Qed.

Lemma weight_removelast (l : list str) : (weight (removelast l) ≤ weight l)%nat.
Proof.
  destruct l as [|c l _] using rev_ind; [done|].
  rewrite removelast_last, weight_app. lia.
Qed.

Lemma join_cons (c c' : str) (rest : list str) :
  join (c :: c' :: rest) = c ++ sep :: join (c' :: rest).
Proof. done. Qed.

Lemma ulen_join (comps : list str) :
  comps ≠ [] → S (ulen (join comps)) = weight comps.
Proof.
  induction comps as [|c [|c' rest] IH]; intros Hne; [done|..].
  - unfold weight. simpl. lia.
  - rewrite join_cons, ulen_app.
    change (sep :: join (c' :: rest)) with ([sep] ++ join (c' :: rest)).
    rewrite ulen_app.
    change (weight (c :: c' :: rest)) with (S (ulen c) + weight (c' :: rest))%nat.
    rewrite <- IH by done. change (ulen [sep]) with 1%nat. lia.
Qed.

Lemma split_nonempty (path : str) : split path ≠ [].
Proof. destruct path; simpl; repeat case_match; done. Qed.

Lemma join_split (path : str) : join (split path) = path.
Proof.
  induction path as [|c path IH]; [done|]. simpl.
  pose proof (split_nonempty path) as Hne.
  destruct (split path) as [|h t] eqn:Hsplit; [done|].
  destruct (N.eqb_spec c sep) as [->|_].
  - rewrite join_cons. by rewrite IH.
  - destruct t as [|c' t]; simpl in *; by rewrite <- IH.
Qed.

Lemma empties_app (l m : list str) : empties (l ++ m) = (empties l + empties m)%nat.
Proof. unfold empties. by rewrite filter_app, length_app. Qed.

(** What the loop of [normpath] has kept is no longer than what it has
    read, the empty components not counted. *)
Lemma normpath_step_weight (k : nat) (acc : list str) (comp : str) :
  (weight (normpath_step k acc comp) + empties [comp]
   ≤ weight acc + weight [comp])%nat.
Proof.
  destruct (decide (comp = [])) as [->|Hempty]; [done|].
  assert (empties [comp] = 0%nat) as ->.
  { unfold empties. by rewrite filter_cons_False. }
  unfold normpath_step.
  repeat case_match; rewrite ?weight_app;
    try pose proof (weight_removelast acc); lia.
Qed.

Lemma normpath_fold_weight (k : nat) (comps acc : list str) :
  (weight (fold_left (normpath_step k) comps acc) + empties comps
   ≤ weight acc + weight comps)%nat.
Proof.
  revert acc. induction comps as [|comp comps IH]; intros acc; cbn [fold_left].
  { change (empties []) with 0%nat. change (weight []) with 0%nat. lia. }
  specialize (IH (normpath_step k acc comp)).
  pose proof (normpath_step_weight k acc comp).
  change (comp :: comps) with ([comp] ++ comps).
  rewrite empties_app, weight_app. lia.
Qed.

Lemma initial_slashes_prefix (path : str) :
  ∃ rest, path = repeat sep (initial_slashes path) ++ rest.
Proof.
  unfold initial_slashes.
  destruct path as [|a path]; [by exists []|]. cbn [startswith].
  destruct (N.eqb_spec sep a) as [<-|_]; [|by eexists].
  destruct path as [|b path]; [by exists []|]. cbn [startswith andb].
  destruct (N.eqb_spec sep b) as [<-|_]; [|by eexists].
  cbn [andb]. destruct (negb _); by eexists.
Qed.

Lemma empties_leading (k : nat) (rest : str) :
  (k ≤ empties (split (repeat sep k ++ rest)))%nat.
Proof.
  rewrite split_leading_seps, empties_app.
  assert (empties (repeat [] k) = k) as ->; [|lia].
  induction k as [|k IH]; [done|]. unfold empties in *.
  change (repeat ([] : str) (S k)) with (([] : str) :: repeat [] k).
  rewrite filter_cons_True by done. cbn [length]. by rewrite IH.
Qed.

(** [normpath] never returns more code units than it was given, except
    "." for the empty path. *)
Lemma normpath_ulen (path : str) : (ulen (normpath path) ≤ max 1 (ulen path))%nat.
Proof.
  rewrite normpath_unfold. unfold str_eqb.
  case_bool_decide as Hpath; [change (ulen dot) with 1%nat; lia|]. cbv zeta.
  set (k := initial_slashes path).
  set (comps := fold_left (normpath_step k) (split path) []).
  destruct (truthy (repeat sep k ++ join comps)); [|change (ulen dot) with 1%nat; lia].
  rewrite ulen_app, ulen_seps.
  destruct (initial_slashes_prefix path) as [rest Hprefix]. fold k in Hprefix.
  assert (ulen path = (k + ulen rest)%nat) as Hlen.
  { rewrite Hprefix at 1. by rewrite ulen_app, ulen_seps. }
  destruct (decide (comps = [])) as [->|Hcomps].
  - change (ulen (join [])) with 0%nat. lia.
  - pose proof (normpath_fold_weight k (split path) []) as Hweight.
    fold comps in Hweight.
    pose proof (ulen_join comps Hcomps) as Hjoin.
    pose proof (ulen_join (split path)) as Hsplit.
    rewrite join_split in Hsplit.
    specialize (Hsplit (split_nonempty path)).
    pose proof (empties_leading k rest) as Hk. rewrite <- Hprefix in Hk.
    change (weight []) with 0%nat in Hweight. lia.
Qed.

(** The separator is an ordinary character. *)
Lemma well_formed_sep (s : str) : well_formed (sep :: s) = well_formed s.
Proof. done. Qed.

Lemma well_formed_app_sep (a b : str) :
  well_formed a = true → well_formed b = true → well_formed (a ++ sep :: b) = true.
Proof.
  intros Ha Hb. induction a as [|x a IH]; [done|].
  cbn [well_formed] in Ha. apply andb_true_iff in Ha as [Hx Ha].
  apply andb_true_iff in Hx as [Hmax Hpair].
  cbn [app well_formed]. rewrite Hmax, (IH Ha), andb_true_r. cbn [andb].
  destruct a as [|y a]; [|done].
  cbn [app]. change (is_low sep) with false. by rewrite andb_false_r.
Qed.

Lemma split_head (path h t : str) (x : N) (rest : list str) :
  split path = (x :: h) :: rest → ∃ path', path = x :: path'.
Proof.
  destruct path as [|a path]; [done|]. simpl.
  destruct (a =? sep)%N; [done|].
  destruct (split path); intros [= <- _]; by eexists.
Qed.

Lemma split_well_formed (path : str) :
  well_formed path = true → Forall (λ c, well_formed c = true) (split path).
Proof.
  induction path as [|c path IH]; [by repeat constructor|].
  cbn [well_formed]. rewrite !andb_true_iff. intros [[Hmax Hpair] Hpath].
  specialize (IH Hpath). simpl.
  destruct (c =? sep)%N; [by constructor|].
  pose proof (split_nonempty path) as Hne.
  destruct (split path) as [|h t] eqn:Hsplit; [done|].
  apply Forall_cons in IH as [Hh Ht]. constructor; [|done].
  cbn [well_formed]. rewrite Hmax, Hh, andb_true_r. cbn [andb].
  destruct h as [|x h]; [by rewrite andb_false_r|].
  destruct (split_head path h [] x t Hsplit) as [path' ->]. done.
Qed.

Lemma join_well_formed (comps : list str) :
  Forall (λ c, well_formed c = true) comps → well_formed (join comps) = true.
Proof.
  induction comps as [|c [|c' rest] IH]; intros Hall; [done|..].
  - by apply Forall_cons in Hall as [Hc _].
  - apply Forall_cons in Hall as [Hc Hrest].
    rewrite join_cons. by apply well_formed_app_sep, IH.
Qed.

Lemma normpath_step_well_formed (k : nat) (acc : list str) (comp : str) :
  well_formed comp = true →
  Forall (λ c, well_formed c = true) acc →
  Forall (λ c, well_formed c = true) (normpath_step k acc comp).
Proof.
  intros Hcomp Hacc. unfold normpath_step.
  repeat case_match; try done.
  - apply Forall_app. split; [done | by repeat constructor].
  - by apply removelast_Forall.
Qed.

Lemma normpath_fold_well_formed (k : nat) (comps acc : list str) :
  Forall (λ c, well_formed c = true) comps →
  Forall (λ c, well_formed c = true) acc →
  Forall (λ c, well_formed c = true) (fold_left (normpath_step k) comps acc).
Proof.
  intros Hcomps. revert acc.
  induction Hcomps as [|c comps Hc _ IH]; intros acc Hacc; simpl; [done|].
  apply IH. by apply normpath_step_well_formed.
Qed.

Lemma normpath_well_formed (path : str) :
  well_formed path = true → well_formed (normpath path) = true.
Proof.
  intros Hpath. rewrite normpath_unfold. unfold str_eqb.
  case_bool_decide; [done|]. cbv zeta.
  set (k := initial_slashes path).
  set (comps := fold_left (normpath_step k) (split path) []).
  destruct (truthy (repeat sep k ++ join comps)); [|done].
  assert (well_formed (join comps) = true) as Hjoin.
  { apply join_well_formed, normpath_fold_well_formed; [|constructor].
    by apply split_well_formed. }
  clearbody comps. induction k as [|k IH]; [done|].
  cbn [repeat app]. by rewrite well_formed_sep.
Qed.

(** [posixpath.normpath] turns a text that a line edit holds into a text
    that a line edit holds. *)
Lemma normpath_fits (path : str) :
  QLineEdit.fit path = path →
  QLineEdit.fit (normpath path) = normpath path.
Proof.
  rewrite !fit_fixed. intros [Hlen Hwf]. split; [|by apply normpath_well_formed].
  pose proof (normpath_ulen path) as Hulen. unfold ulen in Hulen.
  unfold QLineEdit.maxLength in *. lia.
Qed.
End NormpathFits.

(** ** Showing validation errors *)

Section Display.
Context `{Host}.

(** [check_format] raises script errors only. *)
Lemma check_format_raises_script_error (p : Page) (e : exn) :
  check_format p = Raise e → ∃ title info, e = ScriptCheckError title info.
Proof.
  unfold check_format.
  destruct (ScriptParser_eval (script_text p)); simpl; [|intros [= <-]; eauto].
  destruct (isChecked rename_files p); [|done].
  destruct (truthy (strip (script_text p))); simpl; [done|].
  intros [= <-]. eauto.
Qed.

Lemma test_quiet (p : Page) : (test p).2 = None ∧ same_values (test p).1 p.
Proof.
  unfold test.
  set (q := with_renaming_error _ (with_renaming_error _ p)).
  change (check_format q) with (check_format p).
  pose proof (check_format_raises_script_error p) as Hscript.
  destruct (check_format p) as [[]|e]; [done|].
  by destruct (Hscript e eq_refl) as (title & info & ->).
Qed.

(** X1. [test] never lets an exception through.  It leaves the error label
    empty and without style when [check_format] passes, and otherwise
    shows the message of the error [check_format] raises, in the error
    style; no check box, text or naming script is changed. *)
Theorem test_shows_format_error (p : Page) :
  (test p).2 = None
  ∧ same_values (test p).1 p
  ∧ (check_format p = Return () →
     renaming_error (ui (test p).1) = QLabel.mk [] [])
  ∧ (∀ e, check_format p = Raise e →
     ∃ title info, e = ScriptCheckError title info
       ∧ renaming_error (ui (test p).1) = QLabel.mk STYLESHEET_ERROR info).
Proof.
  unfold test.
  set (q := with_renaming_error _ (with_renaming_error _ p)).
  change (check_format q) with (check_format p).
  pose proof (check_format_raises_script_error p) as Hscript.
  destruct (check_format p) as [[]|e].
  - split; [done|]. split; [done|]. split; [done|]. by intros e [=].
  - destruct (Hscript e eq_refl) as (title & info & ->).
    split; [done|]. split; [done|]. split; [done|].
    intros e [= <-]. by exists title, info.
Qed.

(** X2. An error raised by [check] is either the script error of
    [check_format], which [display_error] swallows, or the
    empty-destination error raised after the format has passed, which
    [display_error] hands on to the options dialog. *)
Theorem display_error_of_check (p : Page) (e : exn) :
  check p = Raise e →
  (check_format p = Raise e ∧ display_error e = None)
  ∨ (check_format p = Return () ∧ e = empty_destination_error
     ∧ display_error e = Some e).
Proof.
  rewrite check_after_format.
  pose proof (check_format_raises_script_error p) as Hscript.
  destruct (check_format p) as [[]|e'].
  - destruct (_ && _); [|done]. intros [= <-]. by right.
  - intros [= <-]. destruct (Hscript e' eq_refl) as (title & info & ->).
    by left.
Qed.
End Display.

Lemma test_shows_format_error_witness :
  renaming_error (ui (test (Sample.page true false (u "$invalid(") (u "/music"))).1)
    = QLabel.mk STYLESHEET_ERROR (u "Unbalanced parentheses")
  ∧ renaming_error (ui (test (Sample.page true false (u "%title%") (u "/music"))).1)
    = QLabel.mk [] [].
Proof.
  split.
  - destruct (test_shows_format_error
                (Sample.page true false (u "$invalid(") (u "/music")))
      as (_ & _ & _ & Hfail).
    destruct (Hfail (ScriptCheckError (u "") (u "Unbalanced parentheses")) eq_refl)
      as (title & info & Herror & Hlabel).
    injection Herror as <- <-. exact Hlabel.
  - apply (test_shows_format_error (Sample.page true false (u "%title%") (u "/music"))).
    vm_compute; reflexivity.
Defined.

Lemma display_error_of_check_witness :
  display_error (ScriptCheckError (u "") (u "Unbalanced parentheses")) = None
  ∧ display_error empty_destination_error = Some empty_destination_error.
Proof.
  split.
  - destruct (display_error_of_check Sample.rejected_format_blank_destination
                (ScriptCheckError (u "") (u "Unbalanced parentheses")) eq_refl)
      as [[_ Hnone]|(Hpass & _)]; [exact Hnone | discriminate Hpass].
  - destruct (display_error_of_check (Sample.page false true (u "%title%") (u "  "))
                empty_destination_error eq_refl)
      as [[Hfail _]|(_ & _ & Hshown)]; [discriminate Hfail | exact Hshown].
Defined.

(** ** What [save] stores *)

Section Saving.
Context `{Host}.

(** A text option reads back as it was stored. *)
Lemma setting_text_stored (config : gmap string value) (name : string) (s d : str) :
  (list_to_map options : gmap string value) !! name = Some (TextV d) →
  config !! name = Some (TextV s) →
  setting_text config name = s.
Proof. intros Hd Hv. unfold setting_text, getitem. by rewrite Hd, Hv. Qed.

Lemma check_passed (p : Page) :
  check p = Return () →
  (∃ output, ScriptParser_eval (script_text p) = Evaluated output)
  ∧ (isChecked rename_files p = true → strip (script_text p) ≠ [])
  ∧ (isChecked move_files p = true → strip (text move_files_to p) ≠ []).
Proof.
  rewrite check_after_format. unfold check_format.
  destruct (ScriptParser_eval (script_text p)) as [output|message]; simpl; [|done].
  unfold blank. intros Hcheck. split; [by exists output|].
  destruct (isChecked rename_files p), (isChecked move_files p),
    (strip (script_text p)), (strip (text move_files_to p));
    simpl in *; try done; split; done.
Qed.

(** X3. When [check] has passed, [save] does not store an empty naming
    format together with renaming enabled, nor moving enabled for a blank
    destination field; and the stored format is one the scripting engine
    evaluated before it was stripped. *)
Theorem checked_save_keeps_format (config : gmap string value)
    (window : MainWindow) (p : Page) :
  check p = Return () →
  let config' := (save config window p).1 in
  (∃ output, ScriptParser_eval (script_text p) = Evaluated output)
  ∧ (setting_bool config' "rename_files" = true →
     setting_text config' "file_naming_format" ≠ [])
  ∧ (setting_bool config' "move_files" = true →
     strip (text move_files_to p) ≠ []).
Proof.
  intros (Heval & Hformat & Hdest)%check_passed config'.
  destruct (save_lookup config window p)
    as (_ & _ & Hrename & Hstored & Hmove & _).
  rewrite (setting_bool_stored config' "rename_files" _ false eq_refl Hrename).
  rewrite (setting_bool_stored config' "move_files" _ false eq_refl Hmove).
  rewrite (setting_text_stored config' "file_naming_format" _
             DEFAULT_FILE_NAMING_FORMAT eq_refl Hstored).
  done.
Qed.

(** Saving over a section that already holds what the page shows changes
    nothing. *)
Lemma save_again (config : gmap string value) (window window' : MainWindow) (p : Page) :
  (save (save config window p).1 window' p).1 = (save config window p).1.
Proof.
  destruct (save_lookup config window p)
    as (H1 & H2 & H3 & H4 & H5 & H6 & H7 & H8 & H9 & H10 & H11).
  set (config' := (save config window p).1) in *.
  unfold save at 1. cbn [fst].
  rewrite (insert_id config' _ _ H1), (insert_id config' _ _ H2),
    (insert_id config' _ _ H3), (insert_id config' _ _ H4),
    (insert_id config' _ _ H5), (insert_id config' _ _ H6),
    (insert_id config' _ _ H7), (insert_id config' _ _ H8),
    (insert_id config' _ _ H9), (insert_id config' _ _ H10),
    (insert_id config' _ _ H11).
  done.
Qed.

(** X4. [save] writes the names registered in [options] and no other: a
    name that is not registered keeps what was stored under it, the names
    of the section are the old ones and the registered ones, and saving
    the same page a second time changes neither the section nor the two
    actions of the main window. *)
Theorem save_writes_registered_options (config : gmap string value)
    (window window' : MainWindow) (p : Page) :
  (∀ name, name ∉ options.*1 → (save config window p).1 !! name = config !! name)
  ∧ dom (save config window p).1 = dom config ∪ list_to_set options.*1
  ∧ save (save config window p).1 window' p = save config window p.
Proof.
  split; [|split].
  - intros name Hname. unfold save. cbn [fst].
    rewrite !lookup_insert_ne; [done|..];
      intros <-; apply Hname; cbn;
      repeat first [apply list_elem_of_here | apply list_elem_of_further].
  - unfold save. cbn [fst]. rewrite !dom_insert_L. cbn.
    apply set_eq. intros name.
    rewrite !elem_of_union, !elem_of_singleton, elem_of_empty. tauto.
  - destruct (save_window config window p) as [Hr Hm].
    destruct (save_window (save config window p).1 window' p) as [Hr' Hm'].
    assert (∀ a b : gmap string value * MainWindow,
              a.1 = b.1 →
              enable_renaming_action a.2 = enable_renaming_action b.2 →
              enable_moving_action a.2 = enable_moving_action b.2 → a = b) as Hpair
      by (intros [? []] [? []]; simpl; congruence).
    apply Hpair; [apply save_again | congruence | congruence].
Qed.

(** X5. The preview is computed from what would be saved: the override of
    [update_examples_from_local] holds five names, and under each of them
    the value that [save] stores for the same page. *)
Theorem override_agrees_with_save (config : gmap string value)
    (window : MainWindow) (p : Page) :
  override p ⊆ (save config window p).1
  ∧ dom (override p)
    = ({[ "ascii_filenames"; "move_files"; "move_files_to"; "rename_files";
          "windows_compatibility" ]} : gset string)%string.
Proof.
  split.
  - destruct (save_lookup config window p)
      as (H1 & H2 & H3 & H4 & H5 & H6 & _).
    apply map_subseteq_spec. intros name v. unfold override.
    rewrite !lookup_insert_Some, lookup_empty.
    intros [[<- <-]|[_ [[<- <-]|[_ [[<- <-]|[_ [[<- <-]|[_ [[<- <-]|[_ ?]]]]]]]]]];
      done.
  - unfold override. rewrite !dom_insert_L, dom_empty_L.
    apply set_eq. intros name.
    rewrite !elem_of_union, !elem_of_singleton, elem_of_empty. tauto.
Qed.
End Saving.

Lemma checked_save_keeps_format_witness :
  setting_text
    (save ∅ (mkWindow false false)
       (Sample.page true true (u " %title% ") (u "/music"))).1
    "file_naming_format" ≠ [].
Proof.
  apply (checked_save_keeps_format ∅ (mkWindow false false)
           (Sample.page true true (u " %title% ") (u "/music")));
    vm_compute; reflexivity.
Defined.

(** ** Round trips through the configuration *)

Section RoundTrips.
Context `{Host}.

(** What [load] reads from a section that [save] has written. *)
Lemma saved_settings (config : gmap string value) (window : MainWindow) (p : Page) :
  let config' := (save config window p).1 in
  setting_bool config' "windows_compatibility" = isChecked windows_compatibility p
  ∧ setting_bool config' "ascii_filenames" = isChecked ascii_filenames p
  ∧ setting_bool config' "rename_files" = isChecked rename_files p
  ∧ setting_text config' "file_naming_format" = strip (script_text p)
  ∧ setting_bool config' "move_files" = isChecked move_files p
  ∧ setting_text config' "move_files_to" = os_path_normpath (text move_files_to p)
  ∧ setting_bool config' "move_additional_files" = isChecked move_additional_files p
  ∧ setting_text config' "move_additional_files_pattern"
    = text move_additional_files_pattern p
  ∧ setting_bool config' "delete_empty_dirs" = isChecked delete_empty_dirs p.
Proof.
  intros config'.
  destruct (save_lookup config window p)
    as (H1 & H2 & H3 & H4 & H5 & H6 & H7 & H8 & H9 & _).
  repeat apply conj;
    first [ by eapply setting_bool_stored | by eapply setting_text_stored ].
Qed.

(** X6. A page loaded from what [save] has stored shows the check boxes of
    the page that was saved and its naming format stripped; its file
    pattern and its normalized destination are shown as a line edit holds
    them, which is unchanged for a text of at most 32767 code units.  On
    Windows the Windows compatibility box is ticked whatever was saved. *)
Theorem load_after_save (config : gmap string value) (window : MainWindow)
    (p q : Page) :
  let p' := load (save config window p).1 q in
  (∀ c, isChecked c p' =
        if IS_WIN && bool_decide (c = windows_compatibility) then true
        else isChecked c p)
  ∧ script_text p' = strip (script_text p)
  ∧ text move_files_to p' = QLineEdit.fit (os_path_normpath (text move_files_to p))
  ∧ text move_additional_files_pattern p'
    = QLineEdit.fit (text move_additional_files_pattern p).
Proof.
  intros p'. subst p'.
  destruct (saved_settings config window p)
    as (H1 & H2 & H3 & H4 & H5 & H6 & H7 & H8 & H9).
  split; [|split; [|split]].
  - intros c. rewrite load_isChecked.
    destruct c, IS_WIN; cbn [andb];
      rewrite ?bool_decide_eq_false_2, ?bool_decide_eq_true_2 by done;
      done.
  - by rewrite load_script_text.
  - by rewrite load_text, H6.
  - by rewrite load_text, H8.
Qed.

(** What [load] followed by [save] stores, in terms of what was read. *)
Lemma load_save_lookup (config : gmap string value) (window : MainWindow) (p : Page) :
  let config' := load_save window p config in
  config' !! "windows_compatibility"%string
    = Some (BoolV (if IS_WIN then true
                   else setting_bool config "windows_compatibility"))
  ∧ config' !! "ascii_filenames"%string
    = Some (BoolV (setting_bool config "ascii_filenames"))
  ∧ config' !! "rename_files"%string = Some (BoolV (setting_bool config "rename_files"))
  ∧ config' !! "file_naming_format"%string
    = Some (TextV (strip (setting_text config "file_naming_format")))
  ∧ config' !! "move_files"%string = Some (BoolV (setting_bool config "move_files"))
  ∧ config' !! "move_files_to"%string
    = Some (TextV (os_path_normpath
                     (QLineEdit.fit (setting_text config "move_files_to"))))
  ∧ config' !! "move_additional_files"%string
    = Some (BoolV (setting_bool config "move_additional_files"))
  ∧ config' !! "move_additional_files_pattern"%string
    = Some (TextV (QLineEdit.fit
                     (setting_text config "move_additional_files_pattern")))
  ∧ config' !! "delete_empty_dirs"%string
    = Some (BoolV (setting_bool config "delete_empty_dirs")).
Proof.
  intros config'. subst config'. unfold load_save.
  pose proof (save_lookup config window (load config p)) as Hall.
  rewrite !load_isChecked, !load_text, load_script_text in Hall.
  destruct Hall as (? & ? & ? & ? & ? & ? & ? & ? & ? & _).
  by repeat split.
Qed.

(** X7. Where [os.path.normpath] leaves a normalized path as it is, and
    turns a text that a line edit holds into a text that a line edit
    holds, one [load] and [save] settles the nine plain options: a second
    [load] and [save], from any page and to any window, stores under each
    of them what the first has stored. *)
Theorem load_save_settles (config : gmap string value)
    (window window' : MainWindow) (p p' : Page) :
  (∀ path, os_path_normpath (os_path_normpath path) = os_path_normpath path) →
  (∀ path, QLineEdit.fit path = path →
           QLineEdit.fit (os_path_normpath path) = os_path_normpath path) →
  let once := load_save window p config in
  let twice := load_save window' p' once in
  Forall (λ name, twice !! name = once !! name)
    [ "windows_compatibility"; "ascii_filenames"; "rename_files";
      "file_naming_format"; "move_files"; "move_files_to";
      "move_additional_files"; "move_additional_files_pattern";
      "delete_empty_dirs" ]%string.
Proof.
  intros Hnormpath Hfits once twice.
  destruct (load_save_lookup config window p)
    as (H1 & H2 & H3 & H4 & H5 & H6 & H7 & H8 & H9).
  destruct (load_save_lookup once window' p')
    as (T1 & T2 & T3 & T4 & T5 & T6 & T7 & T8 & T9).
  fold once in H1, H2, H3, H4, H5, H6, H7, H8, H9.
  fold twice in T1, T2, T3, T4, T5, T6, T7, T8, T9.
  rewrite (setting_bool_stored once "windows_compatibility" _ true eq_refl H1) in T1.
  rewrite (setting_bool_stored once "ascii_filenames" _ false eq_refl H2) in T2.
  rewrite (setting_bool_stored once "rename_files" _ false eq_refl H3) in T3.
  rewrite (setting_text_stored once "file_naming_format" _
             DEFAULT_FILE_NAMING_FORMAT eq_refl H4), strip_idempotent in T4.
  rewrite (setting_bool_stored once "move_files" _ false eq_refl H5) in T5.
  rewrite (setting_text_stored once "move_files_to" _ default_music_dir eq_refl H6),
    (Hfits _ (fit_idempotent _)), Hnormpath in T6.
  rewrite (setting_bool_stored once "move_additional_files" _ false eq_refl H7) in T7.
  rewrite (setting_text_stored once "move_additional_files_pattern" _
             (u "*.jpg *.png") eq_refl H8), fit_idempotent in T8.
  rewrite (setting_bool_stored once "delete_empty_dirs" _ true eq_refl H9) in T9.
  repeat constructor; try congruence.
  rewrite T1, H1. by destruct IS_WIN.
Qed.

(** X8. What [check] decides right after [load] depends on the stored
    configuration alone: [load] overwrites everything of the page that
    validation reads. *)
Theorem check_after_load (config : gmap string value) (p q : Page) :
  check_format (load config p) = check_format (load config q)
  ∧ check (load config p) = check (load config q).
Proof.
  unfold check, check_format.
  by rewrite !load_script_text, !load_isChecked, !load_text.
Qed.

(** X9. [save] does not validate: with moving enabled and an empty
    destination field [check] raises the empty-destination error, yet
    [save] stores "." (the normalized empty path), and a page loaded from
    that has a destination that is not blank any more. *)
Theorem save_launders_empty_destination (config : gmap string value)
    (window : MainWindow) (p q : Page) :
  os_path_normpath [] = u "." →
  text move_files_to p = [] →
  isChecked move_files p = true →
  check_format p = Return () →
  check p = Raise empty_destination_error
  ∧ text move_files_to (load (save config window p).1 q) = u "."
  ∧ blank (text move_files_to (load (save config window p).1 q)) = false.
Proof.
  intros Hdot Hempty Hmove Hformat.
  destruct (saved_settings config window p) as (_ & _ & _ & _ & _ & Hdest & _).
  rewrite load_text, Hdest, Hempty, Hdot.
  change (QLineEdit.fit (u ".")) with (u ".").
  repeat split.
  rewrite check_after_format, Hformat, Hmove, Hempty. done.
Qed.

(** X10. Cancelling the directory dialog leaves the page as it is.  A
    chosen directory that a line edit can hold is shown normalized,
    nothing else on the page changes, and where [os.path.normpath] leaves
    a normalized path as it is and keeps it within what a line edit
    holds, [save] and the preview then use exactly the text the field
    shows. *)
Theorem browse_shows_what_is_saved (config : gmap string value)
    (window : MainWindow) (p : Page) (chosen : str) :
  (∀ path, os_path_normpath (os_path_normpath path) = os_path_normpath path) →
  (∀ path, QLineEdit.fit path = path →
           QLineEdit.fit (os_path_normpath path) = os_path_normpath path) →
  chosen ≠ [] →
  QLineEdit.fit chosen = chosen →
  let p' := move_files_to_browse chosen p in
  move_files_to_browse [] p = p
  ∧ text move_files_to p' = os_path_normpath chosen
  ∧ (save config window p').1 !! "move_files_to"%string
    = Some (TextV (text move_files_to p'))
  ∧ override p' !! "move_files_to"%string = Some (TextV (text move_files_to p'))
  ∧ (∀ c, isChecked c p' = isChecked c p)
  ∧ text move_additional_files_pattern p' = text move_additional_files_pattern p
  ∧ script_text p' = script_text p.
Proof.
  intros Hnormpath Hfits Hchosen Hheld p'. subst p'. unfold move_files_to_browse.
  destruct chosen as [|c chosen]; [done|]. cbn [truthy].
  split; [done|].
  assert (text move_files_to (setText move_files_to (os_path_normpath (c :: chosen)) p)
          = os_path_normpath (c :: chosen)) as Htext
    by by rewrite text_setText, decide_True, Hfits.
  split; [done|]. split; [|split; [|by repeat split]].
  - destruct (save_lookup config window
                (setText move_files_to (os_path_normpath (c :: chosen)) p))
      as (_ & _ & _ & _ & _ & Hsaved & _).
    by rewrite Hsaved, Htext, Hnormpath.
  - unfold override. rewrite Htext, Hnormpath. by simplify_map_eq.
Qed.
End RoundTrips.

Lemma load_save_settles_witness :
  Forall (λ name,
            load_save (mkWindow true true) (Sample.page true true (u "x") (u "y"))
              (load_save (mkWindow false false) init Sample.stored) !! name
            = load_save (mkWindow false false) init Sample.stored !! name)
    [ "windows_compatibility"; "ascii_filenames"; "rename_files";
      "file_naming_format"; "move_files"; "move_files_to";
      "move_additional_files"; "move_additional_files_pattern";
      "delete_empty_dirs" ]%string.
Proof.
  apply (load_save_settles Sample.stored (mkWindow false false) (mkWindow true true)
           init (Sample.page true true (u "x") (u "y"))).
  - intros path. apply normpath_idempotent.
  - intros path. apply normpath_fits.
Defined.

Lemma save_launders_empty_destination_witness :
  check (Sample.page false true (u "%title%") (u "")) = Raise empty_destination_error
  ∧ text move_files_to
      (load (save ∅ (mkWindow false false)
               (Sample.page false true (u "%title%") (u ""))).1 init) = u "."
  ∧ blank (text move_files_to
             (load (save ∅ (mkWindow false false)
                      (Sample.page false true (u "%title%") (u ""))).1 init)) = false.
Proof.
  apply (save_launders_empty_destination ∅ (mkWindow false false)
           (Sample.page false true (u "%title%") (u "")) init);
    vm_compute; reflexivity.
Defined.

Lemma browse_shows_what_is_saved_witness :
  text move_files_to (move_files_to_browse (u "/music//rock/") init) = u "/music/rock"
  ∧ (save ∅ (mkWindow false false) (move_files_to_browse (u "/music//rock/") init)).1
      !! "move_files_to"%string = Some (TextV (u "/music/rock")).
Proof.
  destruct (browse_shows_what_is_saved (H := Sample.host) ∅ (mkWindow false false)
              init (u "/music//rock/") normpath_idempotent normpath_fits
              ltac:(done) ltac:(vm_compute; reflexivity))
    as (_ & Htext & Hsaved & _).
  split; [exact Htext | exact Hsaved].
Defined.

(** ** Enabling, disabling and the slots *)

Section Toggles.
Context `{Host}.

(** Pages that agree on their values are validated and saved alike. *)
Lemma same_values_same_results (config : gmap string value) (window : MainWindow)
    (p q : Page) :
  same_values q p →
  save config window q = save config window p
  ∧ check q = check p
  ∧ override q = override p.
Proof.
  intros (Hc & He & Hs & _ & Hed & _).
  unfold save, check, check_format, override.
  by rewrite !Hc, !He, Hs, Hed.
Qed.

(** X11. Enabling and disabling never changes a value: after
    [toggle_file_naming_format], [toggle_file_moving],
    [toggle_file_renaming], and after whatever [enabledSlot] makes of a
    [toggled] signal, [save] stores the same, [check] decides the same and
    the preview gets the same override as before. *)
Theorem toggles_change_no_value (config : gmap string value) (window : MainWindow)
    (p : Page) (c : checkbox) (state : bool) :
  let unchanged q :=
    save config window q = save config window p
    ∧ check q = check p ∧ override q = override p in
  unchanged (toggle_file_naming_format p)
  ∧ unchanged (toggle_file_moving state p)
  ∧ unchanged (toggle_file_renaming state p)
  ∧ unchanged (on_toggled c state p).
Proof.
  intros unchanged. subst unchanged. cbv beta.
  split; [|split; [|split]]; apply same_values_same_results.
  - apply toggle_file_naming_format_same_values.
  - apply toggle_file_moving_same_values.
  - apply toggle_file_naming_format_same_values.
  - apply on_toggled_same_values.
Qed.

(** X12. [toggle_file_moving] enables the five widgets of the destination
    exactly when moving is switched on, and the script editor button and
    the ASCII box exactly when moving or renaming is ticked.  The Windows
    compatibility box follows them except on Windows, where its state is
    kept; the rename and move boxes themselves are never disabled. *)
Theorem toggle_file_moving_enables (state : bool) (p : Page) :
  let p' := toggle_file_moving state p in
  let active := isChecked move_files p || isChecked rename_files p in
  (isEnabled delete_empty_dirs p' = state
   ∧ isEnabled move_additional_files p' = state
   ∧ QLineEdit.isEnabled (line_edit (ui p') move_files_to) = state
   ∧ QLineEdit.isEnabled (line_edit (ui p') move_additional_files_pattern) = state
   ∧ button_enabled (ui p') move_files_to_browse_button = state)
  ∧ (button_enabled (ui p') open_script_editor_button = active
     ∧ isEnabled ascii_filenames p' = active)
  ∧ isEnabled windows_compatibility p'
    = (if IS_WIN then isEnabled windows_compatibility p else active)
  ∧ isEnabled rename_files p' = isEnabled rename_files p
  ∧ isEnabled move_files p' = isEnabled move_files p.
Proof.
  intros p' active. subst p' active.
  unfold toggle_file_moving, toggle_file_naming_format, isEnabled.
  destruct IS_WIN; cbn; rewrite !fn_insert_lookup; done.
Qed.

(** X13. No slot ticks or unticks a check box or edits the file pattern.
    The naming script changes only on [signal_save], to the script of the
    editor, and the destination only when a directory has been chosen in
    the file dialog, to its normalized path as the line edit holds it. *)
Theorem slots_keep_values (s : signal) (p : Page) :
  (∀ c, isChecked c (slot s p).1 = isChecked c p)
  ∧ text move_additional_files_pattern (slot s p).1
    = text move_additional_files_pattern p
  ∧ script_text (slot s p).1
    = match s with
      | signal_save => get_script (script_editor_page p)
      | _ => script_text p
      end
  ∧ text move_files_to (slot s p).1
    = match s with
      | move_files_to_browse_clicked ((_ :: _) as chosen) =>
          QLineEdit.fit (os_path_normpath chosen)
      | _ => text move_files_to p
      end.
Proof.
  destruct s as [c|c state|e| |chosen| |index|l| | |]; cbn [slot fst].
  - by destruct c.
  - by destruct (on_toggled_same_values c state p) as (Hc & He & Hs & _).
  - by destruct e.
  - done.
  - unfold move_files_to_browse. by destruct chosen as [|a chosen].
  - done.
  - done.
  - by destruct l.
  - done.
  - done.
  - unfold update_selector_from_editor, QComboBox.clear. cbn.
    by destruct (foldl _ _ _).
Qed.

(** X14. [check_formats] raises nothing and always recomputes the preview,
    also when the format is rejected: the error label is the one [test]
    leaves, and the example files are updated with the override made of
    the values the page shows. *)
Theorem check_formats_refreshes_preview (p : Page) :
  (check_formats p).2 = None
  ∧ renaming_error (ui (check_formats p).1) = renaming_error (ui (test p).1)
  ∧ examples (check_formats p).1 = update_examples (override p) (examples p)
  ∧ same_values (check_formats p).1
      (with_editor
         (editor_display_examples (update_examples (override p) (examples p))
            (script_editor_page p))
         (with_examples (update_examples (override p) (examples p)) p)).
Proof.
  unfold check_formats.
  destruct (test_quiet p) as [Hnone Hsame].
  destruct (test p) as [q [e|]]; [done|]. cbn [fst snd] in *.
  destruct (same_values_same_results ∅ (mkWindow false false) p q)
    as (_ & _ & Hoverride); [done|].
  destruct Hsame as (Hc & He & Hs & Hr & Hed & Hex).
  unfold update_examples_from_local. cbn.
  rewrite <- Hoverride, Hex, Hed. by repeat split.
Qed.
End Toggles.

(** ** User actions and the preview *)

Section Preview.
Context `{Host}.

Lemma step_click (p : Page) (c : checkbox) :
  step p (Click c) = (slot (clicked c) (setChecked c (negb (isChecked c p)) p)).1.
Proof.
  unfold step. cbn [act length Nat.mul Nat.add deliver].
  pose proof (slot_quiet (clicked c) (setChecked c (negb (isChecked c p)) p)) as Hquiet.
  destruct (slot (clicked c) _) as [q emitted]. cbn [snd] in Hquiet. by subst.
Qed.

Lemma step_edit (p : Page) (e : lineedit) (s : str) :
  step p (Edit e s) = (slot (editingFinished e) (setText e s p)).1.
Proof.
  unfold step. cbn [act length Nat.mul Nat.add deliver].
  pose proof (slot_quiet (editingFinished e) (setText e s p)) as Hquiet.
  destruct (slot (editingFinished e) _) as [q emitted]. cbn [snd] in Hquiet. by subst.
Qed.

(** X15. Ticking or unticking one of the four boxes that shape a file name
    (ASCII, Windows compatibility, rename, move) flips the box and
    recomputes the preview from the page as it then is; so does leaving
    the destination field after an edit, with the normalized path of the
    text the field holds.
    Toggling one of the other two boxes or editing the file pattern
    changes the value and leaves the example files and the editor
    alone. *)
Theorem user_action_refreshes_preview (p : Page) (c : checkbox) (s : str) :
  let clicked_page := step p (Click c) in
  let edited e := step p (Edit e s) in
  isChecked c clicked_page = negb (isChecked c p)
  ∧ (if bool_decide (c ∈ [ascii_filenames; windows_compatibility;
                           rename_files; move_files])
     then examples clicked_page
          = update_examples (override clicked_page) (examples p)
     else examples clicked_page = examples p
          ∧ script_editor_page clicked_page = script_editor_page p)
  ∧ text move_files_to (edited move_files_to) = QLineEdit.fit s
  ∧ override (edited move_files_to) !! "move_files_to"%string
    = Some (TextV (os_path_normpath (QLineEdit.fit s)))
  ∧ examples (edited move_files_to)
    = update_examples (override (edited move_files_to)) (examples p)
  ∧ text move_additional_files_pattern (edited move_additional_files_pattern)
    = QLineEdit.fit s
  ∧ examples (edited move_additional_files_pattern) = examples p
  ∧ script_editor_page (edited move_additional_files_pattern) = script_editor_page p.
Proof.
  intros clicked_page edited. subst clicked_page edited. cbv beta.
  rewrite step_click, !step_edit.
  destruct (setChecked_same_values c (negb (isChecked c p)) p)
    as (Hc & He & Hs & _ & Hed & Hex).
  set (q := setChecked c (negb (isChecked c p)) p) in *.
  split; [|split].
  - transitivity (isChecked c q); [by destruct c|].
    by rewrite Hc, isChecked_with_check_box, decide_True.
  - assert (examples (update_examples_from_local q)
            = update_examples (override (update_examples_from_local q)) (examples p))
      as Hrefreshed.
    { change (examples (update_examples_from_local q))
        with (update_examples (override q) (examples q)).
      by rewrite Hex. }
    destruct c; cbn [slot fst];
      first [ rewrite bool_decide_eq_true_2
                by (repeat first [apply list_elem_of_here | apply list_elem_of_further]);
              exact Hrefreshed
            | rewrite bool_decide_eq_false_2
                by (intros Hin;
                    repeat (apply elem_of_cons in Hin as [Hin|Hin]; [done|]);
                    by apply elem_of_nil in Hin);
              by rewrite Hex, Hed ].
  - cbn [slot fst].
    split; [by rewrite text_update_examples_from_local, text_setText, decide_True|].
    split; [|done].
    unfold override. rewrite text_update_examples_from_local, text_setText, decide_True
      by done.
    by simplify_map_eq.
Qed.
End Preview.

Lemma save_writes_registered_options_witness :
  (save (<["server_host"%string := TextV (u "musicbrainz.org")]> ∅)
     (mkWindow false false) init).1 !! "server_host"%string
  = Some (TextV (u "musicbrainz.org")).
Proof.
  rewrite (proj1 (save_writes_registered_options
                    (<["server_host"%string := TextV (u "musicbrainz.org")]> ∅)
                    (mkWindow false false) (mkWindow false false) init)).
  - reflexivity.
  - intros Hin. cbn in Hin.
    repeat (apply elem_of_cons in Hin as [Hin|Hin]; [discriminate Hin|]).
    by apply elem_of_nil in Hin.
Defined.
